(** * Gofra: the static stack type-checker and the ARM64/MacOS code generator

    A shallow embedding of
    - [src/gofra/typecheck/type_safety.py] ([validate_type_safety]), and
    - [src/gofra/codegen/backends/arm64_macos.py] ([generate_ARM64_MacOS_backend]
      and its helpers),
    with the collaborators they call ([TypecheckContext], [CodegenContext],
    [Operator.get_syscall_arguments_count]) modelled from the specification.

    Conventions of the model:
    - the abstract stack [emulated_stack_types] is a Python list whose last
      element is the top; here it is a Rocq list whose HEAD is the top, so
      [push_types t1 t2] (Python [extend([t1, t2])]) is [t2 :: t1 :: s];
    - Python dicts whose iteration order is observed (the function table)
      are association lists in insertion order;
    - the only mutable objects the code generator touches besides its own
      context are the [syscall_optimization_injected_args] lists of the
      operators; they live in a heap ([list (list (option Z))]) and an
      operator holds a reference (an index into it), so aliasing and
      in-place mutation ([list.pop()]) are modelled as they happen. *)

From Stdlib Require Import ZArith Lia Ascii.
From stdpp Require Import base list strings pretty.

Open Scope string_scope.

(* ------------------------------------------------------------------ *)
(** ** Data model *)

Inductive GofraType := INTEGER | POINTER | BOOLEAN.

#[global] Instance GofraType_eq_dec : EqDecision GofraType.
Proof. solve_decision. Defined.

Inductive OperatorType :=
| PUSH_INTEGER | PUSH_STRING | INTRINSIC | IF | DO | WHILE | END | CALL.

Inductive Intrinsic :=
| PLUS | MINUS | MULTIPLY | DIVIDE | MODULUS
| INCREMENT | DECREMENT
| EQUAL | NOT_EQUAL | LESS_THAN | LESS_EQUAL_THAN | GREATER_THAN
| GREATER_EQUAL_THAN
| DROP | COPY | SWAP
| MEMORY_LOAD | MEMORY_STORE
| SYSCALL0 | SYSCALL1 | SYSCALL2 | SYSCALL3 | SYSCALL4 | SYSCALL5 | SYSCALL6.

(** The operand of an operator: an int ([PUSH_INTEGER]), a str
    ([PUSH_STRING], [CALL]), an [Intrinsic] ([INTRINSIC]) or nothing. *)
Inductive Operand :=
| OperandInt (n : Z)
| OperandStr (s : string)
| OperandIntrinsic (i : Intrinsic)
| OperandNone.

(** A reference to a heap-allocated Python list of injected syscall args. *)
Definition loc := nat.

Record Operator := mkOperator {
  type : OperatorType;
  operand : Operand;
  token_text : string;
  token_location : string;
  jumps_to_operator_idx : option nat;
  has_optimizations : bool;
  infer_type_after_optimization : option GofraType;
  syscall_optimization_omit_result : bool;
  syscall_optimization_injected_args : option loc;
}.

Record Function := mkFunction {
  name : string;
  type_contract_in : list GofraType;
  type_contract_out : list GofraType;
  source : list Operator;
  emit_inline_body : bool;
  is_externally_defined : bool;
}.

(** [ProgramContext]: entry operators, the function table (a dict in
    insertion order) and the set of extern function names ([getattr(...,
    'extern_functions', set())]: an absent attribute is the empty list). *)
Record ProgramContext := mkProgramContext {
  operators : list Operator;
  functions : list (string * Function);
  extern_functions : list string;
}.

(** The heap of the mutable injected-args lists. *)
Definition heap := list (list (option Z)).

(** Reading a list through a reference (a dangling reference reads as an
    empty list, which every user treats like an absent block). *)
Definition heap_read (h : heap) (l : loc) : list (option Z) :=
  default [] (h !! l).

(** Python [key in dict] and [dict[key]] on the function table. *)
Definition dict_mem (k : string) (d : list (string * Function)) : bool :=
  existsb (fun kv => bool_decide (kv.1 = k)) d.

Fixpoint dict_get (k : string) (d : list (string * Function)) : option Function :=
  match d with
  | [] => None
  | (k', v) :: d' => if bool_decide (k' = k) then Some v else dict_get k d'
  end.

Definition set_mem (k : string) (s : list string) : bool :=
  existsb (fun k' => bool_decide (k' = k)) s.

(** Python [str(operator.operand)]. *)
Definition str_of_operand (o : Operand) : string :=
  match o with
  | OperandInt n => pretty n
  | OperandStr s => s
  | _ => ""
  end.

(** Modelled from the spec: [Operator.get_syscall_arguments_count]
    ("SYSCALL0..SYSCALL6 (arity = index + 1 including the syscall number
    slot)"). *)
Definition syscall_arguments_count (i : Intrinsic) : option nat :=
  match i with
  | SYSCALL0 => Some 1 | SYSCALL1 => Some 2 | SYSCALL2 => Some 3
  | SYSCALL3 => Some 4 | SYSCALL4 => Some 5 | SYSCALL5 => Some 6
  | SYSCALL6 => Some 7
  | _ => None
  end.

Definition get_syscall_arguments_count (op : Operator) : nat :=
  match operand op with
  | OperandIntrinsic i => default 0 (syscall_arguments_count i)
  | _ => 0
  end.

(* ------------------------------------------------------------------ *)
(** ** The type-checker *)

Inductive TypecheckError :=
| TypecheckNotEnoughOperatorArgumentsError (op : Operator) (required_args : nat)
| TypecheckInvalidOperatorArgumentTypeError
    (expected_type actual_type : GofraType) (op : Operator)
| TypecheckInvalidPointerArithmeticsError
    (actual_lhs_type actual_rhs_type : GofraType) (op : Operator)
| TypecheckInvalidBinaryMathArithmeticsError
    (actual_lhs_type actual_rhs_type : GofraType) (op : Operator)
| TypecheckNonEmptyStackAtEndError (stack_size : nat)
| PythonIndexError (* [list.pop()] on an empty list *)
| PythonKeyError (key : string)
| PythonAssertionError.

(** The type-checker's state monad over [emulated_stack_types], with
    exceptions. *)
Definition TC (A : Type) := list GofraType -> TypecheckError + (A * list GofraType).

Definition tc_ret {A} (a : A) : TC A := fun s => inr (a, s).
Definition tc_bind {A B} (m : TC A) (k : A -> TC B) : TC B :=
  fun s => match m s with inl e => inl e | inr (a, s') => k a s' end.
Definition tc_raise {A} (e : TypecheckError) : TC A := fun _ => inl e.

(** stdpp's monad notation ([x ← m; k], [m ;; k]) for [TC]. *)
#[global] Instance TC_ret : MRet TC := @tc_ret.
#[global] Instance TC_bind : MBind TC := fun A B k m => tc_bind m k.

(** *** [TypecheckContext] (gofra/typecheck/_context.py)

    Modelled from the spec: the methods of [TypecheckContext] ("Push appends
    to the right (top); pop removes from the right"; "shortfall raises an
    insufficient-operands error annotated with the offending operator";
    "InvalidArgumentType — an operator requires a specific semantic type at
    a given depth; carries expected type, actual type, operator").  A pop
    is Python's [list.pop()], which raises [IndexError] on an empty list. *)
Definition push_types (ts : list GofraType) : TC unit :=
  fun s => inr (tt, (rev ts ++ s)%list).

Definition pop_argument_type : TC GofraType :=
  fun s => match s with
           | [] => inl PythonIndexError
           | t :: s' => inr (t, s')
           end.

Fixpoint consume_n_arguments (n : nat) : TC unit :=
  match n with
  | O => tc_ret tt
  | S n' => tc_bind pop_argument_type (fun _ => consume_n_arguments n')
  end.

Definition raise_for_enough_arguments (op : Operator) (required_args : nat) : TC unit :=
  fun s => if decide (length s < required_args)
           then inl (TypecheckNotEnoughOperatorArgumentsError op required_args)
           else inr (tt, s).

Definition pop_and_raise_for_argument_type (expected : GofraType) (op : Operator)
  : TC unit :=
  tc_bind pop_argument_type (fun actual =>
    if decide (actual = expected) then tc_ret tt
    else tc_raise (TypecheckInvalidOperatorArgumentTypeError expected actual op)).

Fixpoint tc_iter {A} (f : A -> TC unit) (l : list A) : TC unit :=
  match l with
  | [] => tc_ret tt
  | x :: l' => tc_bind (f x) (fun _ => tc_iter f l')
  end.

(** *** [validate_type_safety] (type_safety.py, lines 17-206) *)

(** The [INTRINSIC] arm of the loop body (lines 40-167). *)
Definition tc_intrinsic (h : heap) (op : Operator) (i : Intrinsic) : TC unit :=
  match i with
  | MEMORY_STORE =>
      raise_for_enough_arguments op 2;;
      consume_n_arguments 2
  | MEMORY_LOAD =>
      raise_for_enough_arguments op 2;;
      consume_n_arguments 2;;
      push_types [INTEGER]
  | INCREMENT | DECREMENT =>
      raise_for_enough_arguments op 1;;
      pop_and_raise_for_argument_type INTEGER op;;
      push_types [INTEGER]
  | DROP =>
      raise_for_enough_arguments op 1;;
      consume_n_arguments 1
  | EQUAL | LESS_EQUAL_THAN | LESS_THAN | GREATER_EQUAL_THAN | GREATER_THAN
  | NOT_EQUAL =>
      raise_for_enough_arguments op 2;;
      consume_n_arguments 2;;
      push_types [BOOLEAN]
  | MINUS | PLUS =>
      raise_for_enough_arguments op 2;;
      b ← pop_argument_type;
      a ← pop_argument_type;
      if decide (a = POINTER) then
        (if decide (b ≠ INTEGER) then
           tc_raise (TypecheckInvalidPointerArithmeticsError a b op)
         else push_types [POINTER])
      else
        push_types [b; a];;
        pop_and_raise_for_argument_type INTEGER op;;
        pop_and_raise_for_argument_type INTEGER op;;
        push_types [INTEGER]
  | MULTIPLY | DIVIDE | MODULUS =>
      raise_for_enough_arguments op 2;;
      b ← pop_argument_type;
      a ← pop_argument_type;
      if decide (b ≠ INTEGER ∨ a ≠ INTEGER) then
        tc_raise (TypecheckInvalidBinaryMathArithmeticsError a b op)
      else push_types [INTEGER]
  | SYSCALL0 | SYSCALL1 | SYSCALL2 | SYSCALL3 | SYSCALL4 | SYSCALL5
  | SYSCALL6 =>
      let args_count := get_syscall_arguments_count op in
      let injected_args :=
        match syscall_optimization_injected_args op with
        | Some l => heap_read h l
        | None => []
        end in
      (* [if injected_args:] -- an empty list is falsy *)
      (match injected_args with
       | [] => tc_ret tt
       | _ => push_types (map (fun _ => INTEGER)
                            (filter (fun v => is_Some v) injected_args))
       end);;
      raise_for_enough_arguments op args_count;;
      consume_n_arguments args_count;;
      if syscall_optimization_omit_result op then tc_ret tt
      else push_types [INTEGER]
  | COPY =>
      raise_for_enough_arguments op 1;;
      arg_type ← pop_argument_type;
      push_types [arg_type; arg_type]
  | SWAP =>
      raise_for_enough_arguments op 1;;
      a ← pop_argument_type;
      b ← pop_argument_type;
      push_types [a; b]
  end.

(** The body of the [for operator in operators] loop (lines 24-201). *)
Definition tc_step (h : heap) (pctx : ProgramContext) (op : Operator) : TC unit :=
  match type op with
  | WHILE | END => tc_ret tt
  | PUSH_INTEGER =>
      let push_type :=
        match has_optimizations op, infer_type_after_optimization op with
        | true, Some t => t
        | _, _ => INTEGER
        end in
      push_types [push_type]
  | PUSH_STRING => push_types [POINTER; INTEGER]
  | INTRINSIC =>
      match operand op with
      | OperandIntrinsic i => tc_intrinsic h op i
      | _ => tc_raise PythonAssertionError
      end
  | IF =>
      raise_for_enough_arguments op 1;;
      pop_and_raise_for_argument_type BOOLEAN op
  | CALL =>
      let func_name := str_of_operand (operand op) in
      if set_mem func_name (extern_functions pctx) then
        raise_for_enough_arguments op 1;;
        pop_and_raise_for_argument_type INTEGER op;;
        push_types [INTEGER]
      else
        match dict_get func_name (functions pctx) with
        | None => tc_raise (PythonKeyError func_name)
        | Some function =>
            raise_for_enough_arguments op (length (type_contract_in function));;
            tc_iter (fun type_in => pop_and_raise_for_argument_type type_in op)
                    (rev (type_contract_in function));;
            push_types (type_contract_out function)
        end
  | DO =>
      raise_for_enough_arguments op 1;;
      pop_and_raise_for_argument_type BOOLEAN op
  end.

(** The loop over the sequence, from a given abstract stack. *)
Definition tc_run (h : heap) (pctx : ProgramContext) (ops : list Operator) : TC unit :=
  tc_iter (tc_step h pctx) ops.

(** [validate_type_safety(program_context, operators)]: the context starts
    with [emulated_stack_types=[]] and the stack must be empty at the end. *)
Definition validate_type_safety (h : heap) (pctx : ProgramContext)
    (ops : list Operator) : TypecheckError + unit :=
  match tc_run h pctx ops [] with
  | inl e => inl e
  | inr (_, []) => inr tt
  | inr (_, s) => inl (TypecheckNonEmptyStackAtEndError (length s))
  end.

(* ------------------------------------------------------------------ *)
(** ** The code generator *)

Definition nl : string := String "010"%char EmptyString.
Definition tab : string := String "009"%char EmptyString.
Definition dquote : string := String "034"%char EmptyString.

(** Python's [s[1:-1]]. *)
Definition py_strip_ends (s : string) : string :=
  String.substring 1 (String.length s - 2) s.

Inductive CodegenError :=
| CodegenKeyError (key : string)
| CodegenIndexError
| CodegenAssertionError
| CodegenTypeError
| CodegenNotImplementedError (msg : string).

(** The state of a backend invocation: the text written to [fd] so far
    (in order), the [CodegenContext.strings] dict (insertion order), and the
    heap of injected-args lists shared with the program context. *)
Record CGState := mkCGState {
  out : list string;
  strings : list (string * string);
  cg_heap : heap;
}.

Definition CG (A : Type) := CGState -> CodegenError + (A * CGState).

Definition cg_ret {A} (a : A) : CG A := fun st => inr (a, st).
Definition cg_bind {A B} (m : CG A) (k : A -> CG B) : CG B :=
  fun st => match m st with inl e => inl e | inr (a, st') => k a st' end.
Definition cg_raise {A} (e : CodegenError) : CG A := fun _ => inl e.

#[global] Instance CG_ret : MRet CG := @cg_ret.
#[global] Instance CG_bind : MBind CG := fun A B k m => cg_bind m k.

Fixpoint cg_iter {A} (f : A -> CG unit) (l : list A) : CG unit :=
  match l with
  | [] => cg_ret tt
  | x :: l' => f x;; cg_iter f l'
  end.

(** [fd.write(text)]. *)
Definition fd_write (text : string) : CG unit :=
  fun st => inr (tt, mkCGState ((out st ++ [text])%list) (strings st) (cg_heap st)).

(** Modelled from the spec: [CodegenContext.write] of a list of lines ("Each emitted
    line ends with a newline ... instructions are indented by whitespace
    consistent across the file"): every line is written indented by a tab. *)
Definition write (lines : list string) : CG unit :=
  cg_iter (fun line => fd_write (tab ++ line ++ nl)) lines.

(** Modelled from the spec: [CodegenContext.load_string(payload)] ("Labels
    are assigned on first insertion in encounter order ([str_0], [str_1],
    ...) ... the reference implementation returns a fresh label per
    [PUSH_STRING] occurrence"). *)
Definition load_string (payload : string) : CG string :=
  fun st =>
    let key := "str_" ++ pretty (length (strings st)) in
    inr (key, mkCGState (out st) ((strings st ++ [(key, payload)])%list) (cg_heap st)).

(** Heap operations on the injected-args lists: allocation of a fresh
    Python list, [lst[-k]] (k >= 1) and [lst.pop()]. *)
Definition heap_alloc (v : list (option Z)) : CG loc :=
  fun st => inr (length (cg_heap st),
                 mkCGState (out st) (strings st) ((cg_heap st ++ [v])%list)).

Definition heap_get (l : loc) : CG (list (option Z)) :=
  fun st => inr (heap_read (cg_heap st) l, st).

Definition py_index_neg (l : loc) (k : nat) : CG (option Z) :=
  fun st =>
    let lst := heap_read (cg_heap st) l in
    if decide (1 ≤ k ≤ length lst)%nat then
      match lst !! (length lst - k)%nat with
      | Some v => inr (v, st)
      | None => inl CodegenIndexError
      end
    else inl CodegenIndexError.

Definition py_pop (l : loc) : CG unit :=
  fun st =>
    match heap_read (cg_heap st) l with
    | [] => inl CodegenIndexError
    | lst => inr (tt, mkCGState (out st) (strings st)
                          (<[l := removelast lst]> (cg_heap st)))
    end.

Definition show_nat (n : nat) : string := pretty n.
Definition show_Z (z : Z) : string := pretty z.

(** [OperatorType.name] and [Intrinsic.name]. *)
Definition OperatorType_name (t : OperatorType) : string :=
  match t with
  | PUSH_INTEGER => "PUSH_INTEGER" | PUSH_STRING => "PUSH_STRING"
  | INTRINSIC => "INTRINSIC" | IF => "IF" | DO => "DO" | WHILE => "WHILE"
  | END => "END" | CALL => "CALL"
  end.

Definition Intrinsic_name (i : Intrinsic) : string :=
  match i with
  | PLUS => "PLUS" | MINUS => "MINUS" | MULTIPLY => "MULTIPLY"
  | DIVIDE => "DIVIDE" | MODULUS => "MODULUS" | INCREMENT => "INCREMENT"
  | DECREMENT => "DECREMENT" | EQUAL => "EQUAL" | NOT_EQUAL => "NOT_EQUAL"
  | LESS_THAN => "LESS_THAN" | LESS_EQUAL_THAN => "LESS_EQUAL_THAN"
  | GREATER_THAN => "GREATER_THAN" | GREATER_EQUAL_THAN => "GREATER_EQUAL_THAN"
  | DROP => "DROP" | COPY => "COPY" | SWAP => "SWAP"
  | MEMORY_LOAD => "MEMORY_LOAD" | MEMORY_STORE => "MEMORY_STORE"
  | SYSCALL0 => "SYSCALL0" | SYSCALL1 => "SYSCALL1" | SYSCALL2 => "SYSCALL2"
  | SYSCALL3 => "SYSCALL3" | SYSCALL4 => "SYSCALL4" | SYSCALL5 => "SYSCALL5"
  | SYSCALL6 => "SYSCALL6"
  end.

Definition GofraType_name (t : GofraType) : string :=
  match t with INTEGER => "INTEGER" | POINTER => "POINTER" | BOOLEAN => "BOOLEAN" end.

(** Modelled from the spec: [Operator.is_syscall()] (an [INTRINSIC] whose
    operand is one of [SYSCALL0..SYSCALL6]). *)
Definition is_syscall (op : Operator) : bool :=
  match type op, operand op with
  | INTRINSIC, OperandIntrinsic i => bool_decide (is_Some (syscall_arguments_count i))
  | _, _ => false
  end.

(** Python's [%s] of a bool, an [int | None] and a list of them. *)
Definition py_str_bool (b : bool) : string := if b then "True" else "False".
Definition py_str_opt (v : option Z) : string :=
  match v with Some z => show_Z z | None => "None" end.
Fixpoint py_join (sep : string) (l : list string) : string :=
  match l with
  | [] => ""
  | [x] => x
  | x :: l' => x ++ sep ++ py_join sep l'
  end.

(** [_write_debug_operator_comment] (lines 345-367). *)
Definition write_debug_operator_comment (op : Operator) : CG unit :=
  comment ←
    (match type op, operand op with
     | INTRINSIC, OperandIntrinsic i => cg_ret ("// * Intrinsic " ++ Intrinsic_name i)
     | INTRINSIC, _ => cg_raise CodegenAssertionError
     | t, _ => cg_ret ("// * Operator " ++ OperatorType_name t)
     end);
  let comment := comment ++ " from " ++ token_location op in
  comment ←
    (if has_optimizations op then
       if is_syscall op then
         injected ←
           (match syscall_optimization_injected_args op with
            | None => cg_ret "None"
            | Some l => lst ← heap_get l;
                        cg_ret ("[" ++ py_join ", " (map py_str_opt lst) ++ "]")
            end);
         cg_ret (comment ++ " [optimized, omit result: "
                 ++ py_str_bool (syscall_optimization_omit_result op)
                 ++ ", injected args: " ++ injected ++ "]")
       else
         cg_ret (comment ++ " [optimized, infer type: "
                 ++ match infer_type_after_optimization op with
                    | Some t => GofraType_name t
                    | None => "as-is"
                    end ++ "]")
     else cg_ret comment);
  write [comment].

(** The [SYSCALL0..SYSCALL6] arm of [_write_executable_body_instruction_set]
    (lines 118-162).  [injected_args] is the operator's own list when it is
    present and non-empty (Python's [or]), otherwise a freshly allocated
    [[None for _ in range(syscall_arguments)]]; [injected_args.pop()]
    mutates that list in place. *)
Definition write_syscall (op : Operator) : CG unit :=
  let syscall_arguments := get_syscall_arguments_count op in
  injected_args ←
    (match syscall_optimization_injected_args op with
     | Some l =>
         lst ← heap_get l;
         match lst with
         | [] => heap_alloc (repeat None syscall_arguments)
         | _ => cg_ret l
         end
     | None => heap_alloc (repeat None syscall_arguments)
     end);
  last ← py_index_neg injected_args 1;
  (match last with
   | None => write ["ldr X16, [SP]"; "add SP, SP, #16"]
   | Some v => write ["mov X16, #" ++ show_Z v]
   end);;
  py_pop injected_args;;
  cg_iter (fun arg_n =>
    (* Load register in reversed order of stack so top of the stack is max register *)
    let arg_register := (syscall_arguments - arg_n - 2)%nat in
    injected_arg ← (if decide (arg_n = 0%nat) then cg_ret None
                    else py_index_neg injected_args arg_n);
    match injected_arg with
    | None => write ["ldr X" ++ show_nat arg_register ++ ", [SP]"];;
              write ["add SP, SP, #16"]
    | Some v => write ["mov X" ++ show_nat arg_register ++ ", #" ++ show_Z v]
    end)
    (seq 0 (syscall_arguments - 1));;
  write ["svc #0"];;
  if syscall_optimization_omit_result op then cg_ret tt
  else write ["sub SP, SP, #16"; "str X0, [SP]"].

(** The fixed templates of the other intrinsics (lines 103-117, 163-308). *)
Definition intrinsic_template (i : Intrinsic) : list string :=
  match i with
  | MEMORY_LOAD => ["ldr X0, [SP]"; "ldr X1, [X0]"; "str X1, [SP]"]
  | MEMORY_STORE =>
      ["ldr X0, [SP]"; "add SP, SP, #16"; "ldr X1, [SP]"; "str X0, [X1]"]
  | DROP => ["add SP, SP, #16"]
  | PLUS => ["ldr X0, [SP]"; "add SP, SP, #16"; "ldr X1, [SP]"; "add SP, SP, #16";
             "add X0, X1, X0"; "sub SP, SP, #16"; "str X0, [SP]"]
  | MINUS => ["ldr X0, [SP]"; "add SP, SP, #16"; "ldr X1, [SP]"; "add SP, SP, #16";
              "sub X0, X1, X0"; "sub SP, SP, #16"; "str X0, [SP]"]
  | COPY => ["ldr X0, [SP]"; "str X0, [SP]"; "sub SP, SP, #16"; "str X0, [SP]"]
  | INCREMENT => ["ldr X0, [SP]"; "add X0, X0, #1"; "str X0, [SP]"]
  | DECREMENT => ["ldr X0, [SP]"; "sub X0, X0, #1"; "str X0, [SP]"]
  | MULTIPLY => ["ldr X0, [SP]"; "add SP, SP, #16"; "ldr X1, [SP]"; "add SP, SP, #16";
                 "mul X0, X1, X0"; "sub SP, SP, #16"; "str X0, [SP]"]
  | DIVIDE => ["ldr X0, [SP]"; "add SP, SP, #16"; "ldr X1, [SP]"; "add SP, SP, #16";
               "sdiv X0, X1, X0"; "sub SP, SP, #16"; "str X0, [SP]"]
  | MODULUS => ["ldr X0, [SP]"; "add SP, SP, #16"; "ldr X1, [SP]"; "add SP, SP, #16";
                "udiv X2, X1, X0"; "mul X2, X2, X0"; "sub X0, X1, X2";
                "sub SP, SP, #16"; "str X0, [SP]"]
  | NOT_EQUAL => ["ldr X1, [SP]"; "add SP, SP, #16"; "ldr X0, [SP]"; "add SP, SP, #16";
                  "cmp X0, X1"; "cset X0, ne"; "sub SP, SP, #16"; "str X0, [SP]"]
  | GREATER_EQUAL_THAN =>
      ["ldr X0, [SP]"; "add SP, SP, #16"; "ldr X1, [SP]"; "add SP, SP, #16";
       "cmp X0, X1"; "cset X0, ge"; "sub SP, SP, #16"; "str X0, [SP]"]
  | LESS_EQUAL_THAN =>
      ["ldr X1, [SP]"; "add SP, SP, #16"; "ldr X0, [SP]"; "add SP, SP, #16";
       "cmp X0, X1"; "cset X0, le"; "sub SP, SP, #16"; "str X0, [SP]"]
  | LESS_THAN => ["ldr X1, [SP]"; "add SP, SP, #16"; "ldr X0, [SP]"; "add SP, SP, #16";
                  "cmp X0, X1"; "cset X0, lt"; "sub SP, SP, #16"; "str X0, [SP]"]
  | GREATER_THAN =>
      ["ldr X1, [SP]"; "add SP, SP, #16"; "ldr X0, [SP]"; "add SP, SP, #16";
       "cmp X0, X1"; "cset X0, gt"; "sub SP, SP, #16"; "str X0, [SP]"]
  | EQUAL => ["ldr X1, [SP]"; "add SP, SP, #16"; "ldr X0, [SP]"; "add SP, SP, #16";
              "cmp X0, X1"; "cset X0, eq"; "sub SP, SP, #16"; "str X0, [SP]"]
  | SWAP => ["ldr X0, [SP]"; "add SP, SP, #16"; "ldr X1, [SP]"; "str X0, [SP]";
             "sub SP, SP, #16"; "str X1, [SP]"]
  | SYSCALL0 | SYSCALL1 | SYSCALL2 | SYSCALL3 | SYSCALL4 | SYSCALL5
  | SYSCALL6 => []
  end.

Definition write_intrinsic (op : Operator) (i : Intrinsic) : CG unit :=
  match i with
  | SYSCALL0 | SYSCALL1 | SYSCALL2 | SYSCALL3 | SYSCALL4 | SYSCALL5
  | SYSCALL6 => write_syscall op
  | _ => write (intrinsic_template i)
  end.

(** The branch of the [CALL] arm for a name in [program_context.functions]
    (lines 314-328). *)
Definition write_call_function (function_name : string) (function : Function)
    : CG unit :=
  (if is_externally_defined function then
     cg_iter (fun arg_register =>
                write ["ldr X" ++ show_nat arg_register ++ ", [SP]"];;
                write ["add SP, SP, #16"])
             (rev (seq 0 (length (type_contract_in function))))
   else cg_ret tt);;
  write ["bl " ++ function_name];;
  match type_contract_out function with
  | [] => cg_ret tt
  | _ => write ["sub SP, SP, #16"; "str X0, [SP]"]
  end.

(** The branch of the [CALL] arm for a name only in [extern_functions]
    (lines 329-335). *)
Definition write_call_extern (function_name : string) : CG unit :=
  write ["ldr X0, [SP]"];;
  write ["add SP, SP, #16"];;
  write ["bl " ++ function_name];;
  write ["sub SP, SP, #16"];;
  write ["str X0, [SP]"].

(** One iteration of the loop of [_write_executable_body_instruction_set]
    (lines 55-342), for the operator at index [idx]. *)
Definition write_operator (pctx : ProgramContext) (debug_comments : bool)
    (idx : nat) (op : Operator) : CG unit :=
  (if debug_comments then write_debug_operator_comment op else cg_ret tt);;
  match type op with
  | PUSH_INTEGER =>
      match operand op with
      | OperandInt n => write ["sub SP, SP, #16"; "mov X0, #" ++ show_Z n; "str X0, [SP]"]
      | _ => cg_raise CodegenTypeError
      end
  | PUSH_STRING =>
      match operand op with
      | OperandStr s =>
          label ← load_string (py_strip_ends (token_text op));
          write ["sub SP, SP, #16"; "adr X0, " ++ label; "str X0, [SP]";
                 "sub SP, SP, #16"; "mov X0, #" ++ show_nat (String.length s);
                 "str X0, [SP]"]
      | _ => cg_raise CodegenAssertionError
      end
  | DO =>
      match jumps_to_operator_idx op with
      | Some j => write ["ldr X0, [SP]"; "add SP, SP, #16"; "cmp X0, #1";
                         "bne .ctx_" ++ show_nat j ++ "_over"]
      | None => cg_raise CodegenAssertionError
      end
  | END | WHILE =>
      match jumps_to_operator_idx op with
      | Some j => write ["b .ctx_" ++ show_nat j];;
                  fd_write (".ctx_" ++ show_nat idx ++ "_over:" ++ nl)
      | None => fd_write (".ctx_" ++ show_nat idx ++ ":" ++ nl)
      end
  | IF =>
      match jumps_to_operator_idx op with
      | Some j => write ["ldr X0, [SP]"; "add SP, SP, #16"; "cmp X0, #1";
                         "bne .ctx_" ++ show_nat j]
      | None => cg_raise CodegenAssertionError
      end
  | INTRINSIC =>
      match operand op with
      | OperandIntrinsic i => write_intrinsic op i
      | _ => cg_raise CodegenAssertionError
      end
  | CALL =>
      match operand op with
      | OperandStr function_name =>
          match dict_get function_name (functions pctx) with
          | Some function => write_call_function function_name function
          | None =>
              if set_mem function_name (extern_functions pctx)
              then write_call_extern function_name
              else cg_raise (CodegenKeyError function_name)
          end
      | _ => cg_raise CodegenAssertionError
      end
  end.

(** [_write_executable_body_instruction_set] (lines 46-342). *)
Fixpoint write_body_from (pctx : ProgramContext) (debug_comments : bool)
    (idx : nat) (ops : list Operator) : CG unit :=
  match ops with
  | [] => cg_ret tt
  | op :: ops' => write_operator pctx debug_comments idx op;;
                  write_body_from pctx debug_comments (S idx) ops'
  end.

Definition write_executable_body_instruction_set (pctx : ProgramContext)
    (debug_comments : bool) (ops : list Operator) : CG unit :=
  write_body_from pctx debug_comments 0 ops.

(** [_write_function_declarations] (lines 370-388). *)
Definition write_function_declarations (pctx : ProgramContext)
    (debug_comments : bool) : CG unit :=
  cg_iter (fun function =>
             fd_write (name function ++ ":" ++ nl);;
             write_executable_body_instruction_set pctx debug_comments
               (source function);;
             write ["ret"])
          (filter (fun f => negb (emit_inline_body f) && negb (is_externally_defined f))
                  (map snd (functions pctx))).

(** [_write_debug_header_comment] (lines 391-394); [now] is the text of
    [datetime.now()]. *)
Definition write_debug_header_comment (now : string) : CG unit :=
  fd_write ("// Assembly generated by Gofra codegen backend" ++ nl ++ nl);;
  fd_write ("// Generated at: " ++ now ++ nl);;
  fd_write ("// Target: ARM64, MacOS" ++ nl ++ nl).

(** [_write_program_epilogue] (lines 397-408). *)
Definition write_program_epilogue (debug_comments : bool) : CG unit :=
  (if debug_comments
   then write ["// Program epilogue "; "// (exit return-code 0)"; "// (always included)"]
   else cg_ret tt);;
  write ["mov X0, #0"; "mov X16, #1"; "svc #0"].

(** [_write_static_segment] (lines 411-417). *)
Definition write_static_segment : CG unit :=
  fd_write ("mem_buffer: .space 1000" ++ nl);;
  st ← (fun st => inr (st, st));
  cg_iter (fun kv => fd_write (kv.1 ++ ": .string " ++ dquote ++ kv.2 ++ dquote ++ nl))
          (strings st).

(** [_write_entry_header] (lines 420-423). *)
Definition write_entry_header : CG unit :=
  fd_write (".global _start" ++ nl);;
  fd_write (".align 4" ++ nl ++ nl);;
  fd_write ("_start:" ++ nl).

(** [generate_ARM64_MacOS_backend] (lines 12-43). *)
Definition generate_ARM64_MacOS_backend (pctx : ProgramContext)
    (debug_comments : bool) (now : string) : CG unit :=
  (if debug_comments then write_debug_header_comment now else cg_ret tt);;
  write_function_declarations pctx debug_comments;;
  write_entry_header;;
  write_executable_body_instruction_set pctx debug_comments (operators pctx);;
  write_program_epilogue debug_comments;;
  write_static_segment.

(** A backend invocation on a fresh [CodegenContext] over the heap [h]:
    the text written to [fd] and the heap afterwards. *)
Definition run_backend (h : heap) (pctx : ProgramContext)
    (debug_comments : bool) (now : string) : CodegenError + (string * heap) :=
  match generate_ARM64_MacOS_backend pctx debug_comments now (mkCGState [] [] h) with
  | inl e => inl e
  | inr (_, st) => inr (foldr String.append "" (out st), cg_heap st)
  end.

(* ------------------------------------------------------------------ *)
(** ** Auxiliary definitions for the statements *)

(** The declared contract of a function record. *)
Definition contract (f : Function) : list GofraType * list GofraType :=
  (type_contract_in f, type_contract_out f).

(** A line as [CodegenContext.write] puts it on [fd]. *)
Definition indent (line : string) : string := tab ++ line ++ nl.

(** Net change of SP, in bytes, of a chunk of emitted text: the push and
    pop halves of the slot convention move SP by 16 bytes. *)
Definition chunk_sp_delta (chunk : string) : Z :=
  if bool_decide (chunk = indent "add SP, SP, #16") then 16%Z
  else if bool_decide (chunk = indent "sub SP, SP, #16") then (-16)%Z
  else 0%Z.

Definition sp_delta (chunks : list string) : Z :=
  foldr Z.add 0%Z (map chunk_sp_delta chunks).

(** The output written to [fd] by a run of a [CG] computation on a fresh
    context over the heap [h]. *)
Definition cg_output (m : CG unit) (h : heap) : option (list string) :=
  match m (mkCGState [] [] h) with
  | inl _ => None
  | inr (_, st) => Some (out st)
  end.

(* ------------------------------------------------------------------ *)
(** ** General lemmas *)

Lemma tc_iter_ext {A} (f g : A -> TC unit) (l : list A) :
  (forall x s, f x s = g x s) -> forall s, tc_iter f l s = tc_iter g l s.
Proof.
  intros Hfg. induction l as [|x l IH]; intros s; [reflexivity|].
  cbn. unfold tc_bind. rewrite Hfg. destruct (g x s) as [e|[[] s']]; auto.
Qed.

Lemma tc_iter_pop_contract (op : Operator) (ts : list GofraType) (s : list GofraType) :
  tc_iter (fun t => pop_and_raise_for_argument_type t op) ts (ts ++ s)%list
  = inr (tt, s).
Proof.
  induction ts as [|t ts IH]; [reflexivity|].
  cbn. unfold tc_bind, pop_and_raise_for_argument_type, pop_argument_type, tc_bind.
  cbn. rewrite decide_True by reflexivity. exact IH.
Qed.

Lemma write_spec (lines : list string) (st : CGState) :
  write lines st
  = inr (tt, mkCGState ((out st ++ map indent lines)%list) (strings st) (cg_heap st)).
Proof.
  revert st. induction lines as [|l lines IH]; intros [o ss hp].
  - cbn. rewrite app_nil_r. reflexivity.
  - unfold write in *. simpl cg_iter. unfold mbind, CG_bind, cg_bind, fd_write.
    simpl. rewrite IH. simpl. rewrite <- app_assoc. reflexivity.
Qed.

(* ------------------------------------------------------------------ *)
(** ** Type-checker: arithmetic and termination *)

(** C7: for [PLUS]/[MINUS] over a stack of depth at least two, with [b] the
    upper and [a] the lower operand: [a = POINTER], [b = INTEGER] is accepted
    and pushes [POINTER]; [a = b = INTEGER] is accepted and pushes
    [INTEGER]; every other combination fails with an error. *)
Theorem C7_plus_minus_typing (h : heap) (pctx : ProgramContext) (op : Operator)
    (i : Intrinsic) (s : list GofraType) (a b : GofraType) :
  type op = INTRINSIC -> operand op = OperandIntrinsic i -> (i = PLUS \/ i = MINUS) ->
  (a = POINTER -> b = INTEGER -> tc_step h pctx op (b :: a :: s) = inr (tt, POINTER :: s)) /\
  (a = INTEGER -> b = INTEGER -> tc_step h pctx op (b :: a :: s) = inr (tt, INTEGER :: s)) /\
  (~ (a = POINTER /\ b = INTEGER) -> ~ (a = INTEGER /\ b = INTEGER) ->
   exists e, tc_step h pctx op (b :: a :: s) = inl e).
Proof.
  intros Hty Hop Hi. unfold tc_step. rewrite Hty, Hop.
  destruct Hi as [-> | ->]; repeat split; intros; subst;
    try (destruct a, b; cbn; try (eexists; reflexivity); tauto);
    reflexivity.
Qed.

(** C8: top-level validation succeeds exactly when the abstract stack is
    empty after the whole sequence; a non-empty residual stack raises
    [NonEmptyStackAtEnd] with its size; [[PUSH_INTEGER 1]] fails with
    [NonEmptyStackAtEnd(1)]. *)
Theorem C8_nonempty_stack_at_end (h : heap) (pctx : ProgramContext)
    (ops : list Operator) :
  (validate_type_safety h pctx ops = inr tt <-> tc_run h pctx ops [] = inr (tt, [])) /\
  (forall s, tc_run h pctx ops [] = inr (tt, s) -> s <> [] ->
   validate_type_safety h pctx ops = inl (TypecheckNonEmptyStackAtEndError (length s))) /\
  validate_type_safety h pctx
    [mkOperator PUSH_INTEGER (OperandInt 1) "1" "" None false None false None]
  = inl (TypecheckNonEmptyStackAtEndError 1).
Proof.
  unfold validate_type_safety. split; [|split].
  - destruct (tc_run h pctx ops []) as [e|[[] [|t s]]]; split; intros H;
      congruence.
  - intros s Hrun Hne. rewrite Hrun. destruct s; [congruence|reflexivity].
  - reflexivity.
Qed.

(* ------------------------------------------------------------------ *)
(** ** Type-checker: function contracts *)

Section ContractsOnly.
Variables (h : heap) (pctx pctx' : ProgramContext).
Hypothesis Hext : extern_functions pctx = extern_functions pctx'.
Hypothesis Hcontracts : forall k,
  fmap contract (dict_get k (functions pctx))
  = fmap contract (dict_get k (functions pctx')).

(** A step sees a function only through its declared contract. *)
Lemma tc_step_contract_only (op : Operator) (s : list GofraType) :
  tc_step h pctx op s = tc_step h pctx' op s.
Proof.
  unfold tc_step. destruct (type op); try reflexivity.
  rewrite Hext. destruct (set_mem _ _); [reflexivity|].
  pose proof (Hcontracts (str_of_operand (operand op))) as Hk.
  destruct (dict_get _ (functions pctx)) as [f|],
           (dict_get _ (functions pctx')) as [f'|];
    cbn in Hk; try discriminate; [|reflexivity].
  unfold contract in Hk. injection Hk as Hin Hout.
  rewrite Hin, Hout. reflexivity.
Qed.

Lemma validate_contract_only (ops : list Operator) :
  validate_type_safety h pctx ops = validate_type_safety h pctx' ops.
Proof.
  unfold validate_type_safety, tc_run.
  rewrite (tc_iter_ext _ _ ops tc_step_contract_only). reflexivity.
Qed.
End ContractsOnly.

Lemma tc_step_call_contract (h : heap) (pctx : ProgramContext) (op : Operator)
    (fname : string) (f : Function) (s : list GofraType) :
  type op = CALL -> operand op = OperandStr fname ->
  set_mem fname (extern_functions pctx) = false ->
  dict_get fname (functions pctx) = Some f ->
  tc_step h pctx op (rev (type_contract_in f) ++ s)%list
  = inr (tt, (rev (type_contract_out f) ++ s)%list).
Proof.
  intros Hty Hop Hext Hget. unfold tc_step. rewrite Hty, Hop. cbn [str_of_operand].
  rewrite Hext, Hget.
  unfold mbind, TC_bind, tc_bind, raise_for_enough_arguments.
  rewrite decide_False by (rewrite length_app, length_rev; lia).
  rewrite tc_iter_pop_contract. reflexivity.
Qed.

(** A function whose body [[]] does not produce its output contract
    [[INTEGER]], and a top-level program calling it. *)
Definition f_bad : Function := mkFunction "f" [] [INTEGER] [] false false.

Definition call_f_op : Operator :=
  mkOperator CALL (OperandStr "f") "f" "" None false None false None.

Definition drop_op : Operator :=
  mkOperator INTRINSIC (OperandIntrinsic DROP) "drop" "" None false None false None.

Definition pctx_f_bad : ProgramContext :=
  mkProgramContext [call_f_op; drop_op] [("f", f_bad)] [].

(** C1 (counterexample): the claim "the type-checker accepts only if each
    non-external, non-inline function body, run from its input contract,
    ends on its output contract" is false: validation of the program (and
    of the body itself) accepts [pctx_f_bad], whose function [f] with
    contract [() -> (INTEGER)] has the empty body. *)
Lemma C1_function_contract_not_checked :
  ~ (forall (h : heap) (pctx : ProgramContext) (fname : string) (f : Function),
       dict_get fname (functions pctx) = Some f ->
       emit_inline_body f = false -> is_externally_defined f = false ->
       validate_type_safety h pctx (operators pctx) = inr tt ->
       validate_type_safety h pctx (source f) = inr tt ->
       tc_run h pctx (source f) (rev (type_contract_in f))
       = inr (tt, rev (type_contract_out f))).
Proof.
  intros Hclaim.
  specialize (Hclaim [] pctx_f_bad "f" f_bad eq_refl eq_refl eq_refl
                eq_refl eq_refl).
  vm_compute in Hclaim. discriminate.
Qed.

(** C1 (amended): the type-checker never runs a function body: its result
    depends on the function table only through the declared contracts and
    the extern set (two program contexts whose functions have the same
    contracts validate any sequence alike), and a contract is used at a
    [CALL] site only, which pops the reversed input contract and pushes the
    output contract. *)
Theorem C1_function_bodies_not_checked (h : heap) (pctx pctx' : ProgramContext)
    (ops : list Operator) :
  extern_functions pctx = extern_functions pctx' ->
  (forall k, fmap contract (dict_get k (functions pctx))
             = fmap contract (dict_get k (functions pctx'))) ->
  validate_type_safety h pctx ops = validate_type_safety h pctx' ops /\
  (forall (op : Operator) (fname : string) (f : Function) (s : list GofraType),
     type op = CALL -> operand op = OperandStr fname ->
     set_mem fname (extern_functions pctx) = false ->
     dict_get fname (functions pctx) = Some f ->
     tc_step h pctx op (rev (type_contract_in f) ++ s)%list
     = inr (tt, (rev (type_contract_out f) ++ s)%list)).
Proof.
  intros Hext Hcontracts. split.
  - apply validate_contract_only; assumption.
  - intros op fname f s. apply tc_step_call_contract.
Qed.

(* ------------------------------------------------------------------ *)
(** ** Type-checker: error kinds *)

Definition push_int_op (n : Z) : Operator :=
  mkOperator PUSH_INTEGER (OperandInt n) (show_Z n) "" None false None false None.

Definition push_string_op (text : string) : Operator :=
  mkOperator PUSH_STRING (OperandStr text) (dquote ++ text ++ dquote) ""
    None false None false None.

Definition intrinsic_op (i : Intrinsic) : Operator :=
  mkOperator INTRINSIC (OperandIntrinsic i) (Intrinsic_name i) "" None false None false None.

Definition empty_program (ops : list Operator) : ProgramContext :=
  mkProgramContext ops [] [].

(** Scenario 4 of the specification. *)
Definition int_plus_pointer_ops : list Operator :=
  [push_int_op 5; push_string_op "x"; intrinsic_op DROP; intrinsic_op PLUS].

(** C5 (counterexample): [[PUSH_INTEGER 5, PUSH_STRING "x", INTRINSIC DROP,
    INTRINSIC PLUS]] does not fail with [InvalidPointerArithmetic]: it fails
    with [InvalidArgumentType(expected INTEGER, actual POINTER)]. *)
Lemma C5_int_plus_pointer_error_kind :
  validate_type_safety [] (empty_program int_plus_pointer_ops) int_plus_pointer_ops
  = inl (TypecheckInvalidOperatorArgumentTypeError INTEGER POINTER (intrinsic_op PLUS)) /\
  ~ (exists lhs rhs o,
       validate_type_safety [] (empty_program int_plus_pointer_ops) int_plus_pointer_ops
       = inl (TypecheckInvalidPointerArithmeticsError lhs rhs o)).
Proof.
  split.
  - reflexivity.
  - intros (lhs & rhs & o & H). vm_compute in H. discriminate.
Qed.

(** C5 (amended): [PLUS]/[MINUS] with lower operand [INTEGER] and upper
    operand [POINTER] fails with [InvalidArgumentType(INTEGER, POINTER)];
    [InvalidPointerArithmetic] is raised exactly when the lower operand is
    [POINTER] and the upper one is not [INTEGER]. *)
Theorem C5_int_plus_pointer_rejected (h : heap) (pctx : ProgramContext)
    (op : Operator) (i : Intrinsic) (s : list GofraType) :
  type op = INTRINSIC -> operand op = OperandIntrinsic i -> (i = PLUS \/ i = MINUS) ->
  tc_step h pctx op (POINTER :: INTEGER :: s)
  = inl (TypecheckInvalidOperatorArgumentTypeError INTEGER POINTER op) /\
  (forall a b : GofraType,
     tc_step h pctx op (b :: a :: s) = inl (TypecheckInvalidPointerArithmeticsError a b op)
     <-> a = POINTER /\ b <> INTEGER).
Proof.
  intros Hty Hop Hi. unfold tc_step. rewrite Hty, Hop.
  destruct Hi as [-> | ->]; split; [reflexivity| |reflexivity|];
    intros a b; destruct a, b; cbn; split; intros H;
    solve [ discriminate | reflexivity | destruct H; congruence
          | split; [reflexivity|discriminate] ].
Qed.

(** C6 (failing input): [SWAP] checks for one operand but pops two: on a
    stack of depth 1 the second pop runs past the bottom ([IndexError]),
    and no [InsufficientOperands] error is raised. *)
Theorem C6_swap_depth_one (h : heap) (pctx : ProgramContext) (t : GofraType) :
  tc_step h pctx (intrinsic_op SWAP) [t] = inl PythonIndexError /\
  validate_type_safety h pctx [push_int_op 1; intrinsic_op SWAP] = inl PythonIndexError.
Proof. split; reflexivity. Qed.

(* ------------------------------------------------------------------ *)
(** ** Type-checker and code generator on [CALL] *)

(** C9: for a [CALL] whose target is both in the function table and in the
    extern set, the type-checker applies the fixed extern contract (one
    [INTEGER] in, one [INTEGER] out) whatever the record declares, while the
    code generator lowers the call from the function record. *)
Theorem C9_call_in_both_tables (h : heap) (pctx : ProgramContext) (op : Operator)
    (fname : string) (f : Function) (idx : nat) (st : CGState) (s : list GofraType) :
  type op = CALL -> operand op = OperandStr fname ->
  dict_get fname (functions pctx) = Some f ->
  set_mem fname (extern_functions pctx) = true ->
  tc_step h pctx op (INTEGER :: s) = inr (tt, INTEGER :: s) /\
  (forall t, t <> INTEGER ->
     tc_step h pctx op (t :: s) = inl (TypecheckInvalidOperatorArgumentTypeError INTEGER t op)) /\
  tc_step h pctx op [] = inl (TypecheckNotEnoughOperatorArgumentsError op 1) /\
  write_operator pctx false idx op st = write_call_function fname f st.
Proof.
  intros Hty Hop Hget Hext. split; [|split; [|split]].
  - unfold tc_step. rewrite Hty, Hop. cbn [str_of_operand]. rewrite Hext. reflexivity.
  - intros t Ht. unfold tc_step. rewrite Hty, Hop. cbn [str_of_operand]. rewrite Hext.
    destruct t; [congruence|reflexivity|reflexivity].
  - unfold tc_step. rewrite Hty, Hop. cbn [str_of_operand]. rewrite Hext. reflexivity.
  - unfold write_operator. rewrite Hty, Hop, Hget. reflexivity.
Qed.

(* ------------------------------------------------------------------ *)
(** ** Code generator: [PUSH_STRING] *)

(** C10: [PUSH_STRING] interns the token text without its first and last
    character, but pushes the length of the operand string; e.g. for the
    token [\"a\nb\"] (a backslash escape) with operand [a<newline>b] the
    payload has 4 characters and the pushed length is 3. *)
Theorem C10_push_string_payload_and_length (pctx : ProgramContext) (idx : nat)
    (op : Operator) (s : string) (st : CGState) :
  (type op = PUSH_STRING -> operand op = OperandStr s ->
  write_operator pctx false idx op st
  = inr (tt, mkCGState
               (app (out st) (map indent
                   ["sub SP, SP, #16";
                    "adr X0, str_" ++ show_nat (length (strings st));
                    "str X0, [SP]"; "sub SP, SP, #16";
                    "mov X0, #" ++ show_nat (String.length s); "str X0, [SP]"]))
               (app (strings st) [("str_" ++ show_nat (length (strings st)),
                                   py_strip_ends (token_text op))])
               (cg_heap st))) /\
  (let esc := mkOperator PUSH_STRING (OperandStr ("a" ++ nl ++ "b"))
                (dquote ++ "a\nb" ++ dquote) "" None false None false None in
   write_operator pctx false idx esc (mkCGState [] [] [])
   = inr (tt, mkCGState
                (map indent ["sub SP, SP, #16"; "adr X0, str_0"; "str X0, [SP]";
                             "sub SP, SP, #16"; "mov X0, #3"; "str X0, [SP]"])
                [("str_0", "a\nb")] []) /\
   String.length "a\nb" = 4%nat).
Proof.
  split.
  - intros Hty Hop. unfold write_operator. rewrite Hty, Hop.
    unfold mbind, CG_bind, cg_bind. cbn [cg_ret].
    unfold load_string. rewrite write_spec. reflexivity.
  - split; reflexivity.
Qed.

(* ------------------------------------------------------------------ *)
(** ** Code generator: memory load and syscalls *)

(** A program the type-checker accepts: two values, a load, a drop. *)
Definition memory_load_ops : list Operator :=
  [push_int_op 0; push_int_op 0; intrinsic_op MEMORY_LOAD; intrinsic_op DROP].

(** C2 (failing input): the type-checker gives [MEMORY_LOAD] the effect
    "two slots in, one [INTEGER] out" (depth -1, i.e. SP +16 bytes), but
    the emitted template leaves SP unchanged (one slot in, one out); on
    [memory_load_ops], accepted by the type-checker, the emitted body ends
    with SP 16 bytes below where it started. *)
Theorem C2_memory_load_stack_effect (h : heap) (pctx : ProgramContext) (idx : nat)
    (st : CGState) (s : list GofraType) (t1 t2 : GofraType) :
  tc_step h pctx (intrinsic_op MEMORY_LOAD) (t1 :: t2 :: s) = inr (tt, INTEGER :: s) /\
  write_operator pctx false idx (intrinsic_op MEMORY_LOAD) st
  = inr (tt, mkCGState (app (out st) (map indent ["ldr X0, [SP]"; "ldr X1, [X0]"; "str X1, [SP]"]))
                       (strings st) (cg_heap st)) /\
  sp_delta (map indent (intrinsic_template MEMORY_LOAD)) = 0%Z /\
  validate_type_safety h (empty_program memory_load_ops) memory_load_ops = inr tt /\
  option_map sp_delta
    (cg_output (write_executable_body_instruction_set
                  (empty_program memory_load_ops) false memory_load_ops) h)
  = Some (-16)%Z.
Proof.
  split; [reflexivity|]. split; [|split; [reflexivity|split; reflexivity]].
  unfold write_operator. cbn [type operand intrinsic_op].
  unfold mbind, CG_bind, cg_bind. cbn [cg_ret write_intrinsic].
  rewrite write_spec. reflexivity.
Qed.

(** A [SYSCALL1] (arity 2) whose injected block is [[5, None]]: argument
    slot 0 is the immediate 5, the syscall number comes from the stack. *)
Definition syscall1_op : Operator :=
  mkOperator INTRINSIC (OperandIntrinsic SYSCALL1) "syscall1" "" None true None
    false (Some 0%nat).

Definition syscall1_heap : heap := [[Some 5%Z; None]].

(** C3 (failing input): for [syscall1_op] the generator pops the data
    stack into [X0] although injected slot 0 holds the immediate 5; the
    claimed lowering would emit [mov X0, #5] and pop nothing into [X0]. *)
Theorem C3_syscall_injected_arg_ignored :
  cg_output (write_operator (empty_program [syscall1_op]) false 0 syscall1_op)
            syscall1_heap
  = Some (map indent ["ldr X16, [SP]"; "add SP, SP, #16";
                      "ldr X0, [SP]"; "add SP, SP, #16"; "svc #0";
                      "sub SP, SP, #16"; "str X0, [SP]"]).
Proof. reflexivity. Qed.

(** A [SYSCALL0] whose syscall number 1 is injected, followed by a drop of
    its result: a program the type-checker accepts. *)
Definition syscall0_op : Operator :=
  mkOperator INTRINSIC (OperandIntrinsic SYSCALL0) "syscall0" "" None true None
    false (Some 0%nat).

Definition syscall0_program : ProgramContext :=
  empty_program [syscall0_op; intrinsic_op DROP].

Definition syscall0_heap : heap := [[Some 1%Z]].

(** C4 (failing input): the generator pops the operator's own injected-args
    list in place, so a second run on the same (type-checked) program
    context sees an emptied list and emits different text. *)
Theorem C4_second_run_differs :
  validate_type_safety syscall0_heap syscall0_program (operators syscall0_program)
  = inr tt /\
  exists out1 h1 out2 h2,
    run_backend syscall0_heap syscall0_program false "" = inr (out1, h1) /\
    heap_read h1 0 = [] /\
    run_backend h1 syscall0_program false "" = inr (out2, h2) /\
    out1 <> out2.
Proof.
  split; [reflexivity|].
  eexists _, _, _, _. split; [vm_compute; reflexivity|].
  split; [reflexivity|]. split; [vm_compute; reflexivity|].
  vm_compute. discriminate.
Qed.

(* ------------------------------------------------------------------ *)
(** ** Witnesses: the theorems applied at concrete inputs *)

Definition f_good : Function := mkFunction "f" [] [INTEGER] [push_int_op 1] false false.

Definition pctx_f_good : ProgramContext :=
  mkProgramContext [call_f_op; drop_op] [("f", f_good)] [].

Lemma C1_function_bodies_not_checked_witness :
  validate_type_safety [] pctx_f_bad (operators pctx_f_bad)
  = validate_type_safety [] pctx_f_good (operators pctx_f_bad) /\
  tc_step [] pctx_f_bad call_f_op [BOOLEAN] = inr (tt, [INTEGER; BOOLEAN]).
Proof.
  split.
  - apply (C1_function_bodies_not_checked [] pctx_f_bad pctx_f_good
             (operators pctx_f_bad) eq_refl).
    intros k. cbn. destruct (bool_decide ("f" = k)); reflexivity.
  - apply (proj2 (C1_function_bodies_not_checked [] pctx_f_bad pctx_f_good []
                    eq_refl (fun k => ltac:(cbn; destruct (bool_decide ("f" = k));
                                            reflexivity)))
             call_f_op "f" f_bad [BOOLEAN] eq_refl eq_refl eq_refl eq_refl).
Defined.

Lemma C5_int_plus_pointer_rejected_witness :
  type (intrinsic_op MINUS) = INTRINSIC /\
  tc_step [] (empty_program []) (intrinsic_op MINUS) [POINTER; INTEGER]
  = inl (TypecheckInvalidOperatorArgumentTypeError INTEGER POINTER (intrinsic_op MINUS)).
Proof.
  split; [reflexivity|].
  apply (proj1 (C5_int_plus_pointer_rejected [] (empty_program []) (intrinsic_op MINUS)
                  MINUS [] eq_refl eq_refl (or_intror eq_refl))).
Defined.

Lemma C7_plus_minus_typing_witness :
  type (intrinsic_op PLUS) = INTRINSIC /\
  tc_step [] (empty_program []) (intrinsic_op PLUS) [INTEGER; POINTER]
  = inr (tt, [POINTER]).
Proof.
  split; [reflexivity|].
  apply (proj1 (C7_plus_minus_typing [] (empty_program []) (intrinsic_op PLUS) PLUS []
                  POINTER INTEGER eq_refl eq_refl (or_introl eq_refl)));
    reflexivity.
Defined.

Lemma C8_nonempty_stack_at_end_witness :
  tc_run [] (empty_program []) [push_int_op 7; push_int_op 8] [] = inr (tt, [INTEGER; INTEGER]) /\
  validate_type_safety [] (empty_program []) [push_int_op 7; push_int_op 8]
  = inl (TypecheckNonEmptyStackAtEndError 2).
Proof.
  split; [reflexivity|].
  apply (proj1 (proj2 (C8_nonempty_stack_at_end [] (empty_program [])
                         [push_int_op 7; push_int_op 8])) [INTEGER; INTEGER]);
    [reflexivity | discriminate].
Defined.

Definition f_puts : Function :=
  mkFunction "puts" [POINTER; POINTER] [] [] false false.

Definition call_puts_op : Operator :=
  mkOperator CALL (OperandStr "puts") "puts" "" None false None false None.

Definition pctx_puts_both : ProgramContext :=
  mkProgramContext [] [("puts", f_puts)] ["puts"].

Lemma C9_call_in_both_tables_witness :
  set_mem "puts" (extern_functions pctx_puts_both) = true /\
  tc_step [] pctx_puts_both call_puts_op [INTEGER] = inr (tt, [INTEGER]).
Proof.
  split; [reflexivity|].
  apply (proj1 (C9_call_in_both_tables [] pctx_puts_both call_puts_op "puts" f_puts 0
                  (mkCGState [] [] []) [] eq_refl eq_refl eq_refl eq_refl)).
Defined.

Lemma C10_push_string_payload_and_length_witness :
  type (push_string_op "hi") = PUSH_STRING /\
  write_operator (empty_program []) false 0 (push_string_op "hi") (mkCGState [] [] [])
  = inr (tt, mkCGState
               (map indent ["sub SP, SP, #16"; "adr X0, str_0"; "str X0, [SP]";
                            "sub SP, SP, #16"; "mov X0, #2"; "str X0, [SP]"])
               [("str_0", "hi")] []).
Proof.
  split; [reflexivity|].
  apply (proj1 (C10_push_string_payload_and_length (empty_program []) 0
                  (push_string_op "hi") "hi" (mkCGState [] [] []))
           eq_refl eq_refl).
Defined.

(* ================================================================== *)
(** * Further properties of the type-checker *)

(** A [TC] computation that, when it succeeds on a stack, succeeds in the
    same way on any deeper stack, leaving the extra slots untouched. *)
Definition tc_frame {A} (m : TC A) : Prop :=
  forall s a s' e, m s = inr (a, s') -> m (s ++ e)%list = inr (a, (s' ++ e)%list).

Lemma tc_frame_ret {A} (a : A) : tc_frame (tc_ret a).
Proof. intros s a' s' e H. injection H as <- <-. reflexivity. Qed.

Lemma tc_frame_raise {A} (err : TypecheckError) : tc_frame (A:=A) (tc_raise err).
Proof. intros s a s' e H. discriminate. Qed.

Lemma tc_frame_bind {A B} (m : TC A) (k : A -> TC B) :
  tc_frame m -> (forall a, tc_frame (k a)) -> tc_frame (tc_bind m k).
Proof.
  intros Hm Hk s b s' e. unfold tc_bind.
  destruct (m s) as [err|[a s1]] eqn:E; [discriminate|].
  rewrite (Hm _ _ _ e E). apply Hk.
Qed.

Lemma tc_frame_mbind {A B} (m : TC A) (k : A -> TC B) :
  tc_frame m -> (forall a, tc_frame (k a)) -> tc_frame (mbind k m).
Proof. apply tc_frame_bind. Qed.

Lemma tc_frame_push (ts : list GofraType) : tc_frame (push_types ts).
Proof.
  intros s a s' e H. injection H as <- <-. unfold push_types.
  rewrite <- (app_assoc (rev ts) s e). reflexivity.
Qed.

Lemma tc_frame_pop : tc_frame pop_argument_type.
Proof.
  intros [|t s] a s' e H; [discriminate|]. injection H as <- <-. reflexivity.
Qed.

Lemma tc_frame_enough (op : Operator) (n : nat) : tc_frame (raise_for_enough_arguments op n).
Proof.
  intros s a s' e. unfold raise_for_enough_arguments.
  destruct (decide (length s < n)); [discriminate|].
  intros H. injection H as <- <-.
  rewrite decide_False by (rewrite length_app; lia). reflexivity.
Qed.

Lemma tc_frame_consume (n : nat) : tc_frame (consume_n_arguments n).
Proof.
  induction n as [|n IH]; cbn; [apply tc_frame_ret|].
  apply tc_frame_bind; [apply tc_frame_pop|intros; exact IH].
Qed.

Lemma tc_frame_pop_check (t : GofraType) (op : Operator) :
  tc_frame (pop_and_raise_for_argument_type t op).
Proof.
  apply tc_frame_bind; [apply tc_frame_pop|].
  intros a. destruct (decide (a = t)); [apply tc_frame_ret|apply tc_frame_raise].
Qed.

Lemma tc_frame_iter {A} (f : A -> TC unit) (l : list A) :
  (forall x, tc_frame (f x)) -> tc_frame (tc_iter f l).
Proof.
  intros Hf. induction l as [|x l IH]; cbn; [apply tc_frame_ret|].
  apply tc_frame_bind; auto.
Qed.

Ltac tc_frame_solve :=
  repeat (intros; first
    [ apply tc_frame_ret | apply tc_frame_raise | apply tc_frame_push
    | apply tc_frame_pop | apply tc_frame_enough | apply tc_frame_consume
    | apply tc_frame_pop_check
    | apply tc_frame_iter
    | apply tc_frame_mbind | apply tc_frame_bind
    | match goal with
      | |- tc_frame (if ?b then _ else _) => destruct b
      | |- tc_frame (match ?x with _ => _ end) => destruct x
      end ]).

Lemma tc_step_frame (h : heap) (pctx : ProgramContext) (op : Operator) :
  tc_frame (tc_step h pctx op).
Proof.
  unfold tc_step, tc_intrinsic. destruct (type op); tc_frame_solve.
Qed.

Lemma tc_run_frame (h : heap) (pctx : ProgramContext) (ops : list Operator) :
  tc_frame (tc_run h pctx ops).
Proof. apply tc_frame_iter. apply tc_step_frame. Qed.

(** X1: an operator sequence that type-checks from a stack [s] to [s']
    type-checks from [s] with any slots [e] beneath it, to [s'] over the
    same [e]; in particular a program accepted by [validate_type_safety]
    leaves any stack it is run on unchanged. *)
Theorem X1_typecheck_frame (h : heap) (pctx : ProgramContext) (ops : list Operator) :
  (forall s s' e, tc_run h pctx ops s = inr (tt, s') ->
   tc_run h pctx ops (s ++ e)%list = inr (tt, (s' ++ e)%list)) /\
  (validate_type_safety h pctx ops = inr tt ->
   forall e, tc_run h pctx ops e = inr (tt, e)).
Proof.
  split.
  - intros s s' e H. exact (tc_run_frame h pctx ops s tt s' e H).
  - intros Hv e. unfold validate_type_safety in Hv.
    destruct (tc_run h pctx ops []) as [err|[[] [|t s]]] eqn:E; try discriminate.
    exact (tc_run_frame h pctx ops [] tt [] e E).
Qed.


Lemma consume_n_arguments_drop (n : nat) (s : list GofraType) :
  n <= length s -> consume_n_arguments n s = inr (tt, drop n s).
Proof.
  revert s. induction n as [|n IH]; intros s Hn; [reflexivity|].
  destruct s as [|t s]; cbn in Hn; [lia|]. cbn. unfold tc_bind. cbn.
  apply IH. lia.
Qed.

(** The number of injected (non-[None]) syscall arguments the type-checker
    sees for an operator. *)
Definition injected_count (h : heap) (op : Operator) : nat :=
  length (filter (fun v => is_Some v)
            (match syscall_optimization_injected_args op with
             | Some l => heap_read h l
             | None => []
             end)).

Lemma syscall_tc_shape (inj : list (option Z)) (op : Operator) (n : nat)
    (omit : bool) (s : list GofraType) :
  tc_bind (match inj with
           | [] => tc_ret tt
           | _ => push_types (map (fun _ => INTEGER) (filter (fun v => is_Some v) inj))
           end)
    (fun _ => tc_bind (raise_for_enough_arguments op n)
      (fun _ => tc_bind (consume_n_arguments n)
        (fun _ => if omit then tc_ret tt else push_types [INTEGER]))) s
  = let k := length (filter (fun v => is_Some v) inj) in
    if decide (length s + k < n)
    then inl (TypecheckNotEnoughOperatorArgumentsError op n)
    else inr (tt, ((if omit then [] else [INTEGER]) ++ drop n (repeat INTEGER k ++ s))%list).
Proof.
  cbv zeta.
  assert (Hpush : forall s0,
    (match inj with
     | [] => tc_ret tt
     | _ => push_types (map (fun _ => INTEGER) (filter (fun v => is_Some v) inj))
     end) s0
    = inr (tt, (repeat INTEGER (length (filter (fun v => is_Some v) inj)) ++ s0)%list)).
  { intros s0. destruct inj as [|v inj']; [reflexivity|]. unfold push_types.
    generalize (filter (fun v => is_Some v) (v :: inj')) as l. intros l.
    rewrite <- (length_map (fun _ => INTEGER) l).
    replace (rev (map (fun _ => INTEGER) l)) with (repeat INTEGER (length (map (fun _ => INTEGER) l)));
      [reflexivity|].
    induction l as [|x l IH]; [reflexivity|].
    cbn. rewrite <- IH. rewrite repeat_cons. reflexivity. }
  unfold tc_bind at 1. rewrite Hpush.
  remember (length (filter (fun v => is_Some v) inj)) as k eqn:Hk.
  unfold tc_bind, raise_for_enough_arguments. rewrite length_app, repeat_length.
  destruct (decide (length s + k < n)).
  - rewrite decide_True by lia. reflexivity.
  - rewrite decide_False by lia.
    rewrite consume_n_arguments_drop by (rewrite length_app, repeat_length; lia).
    destruct omit; reflexivity.
Qed.

(** X3: a syscall of arity [n] whose injected block has [k] non-[None]
    slots pushes [k] [INTEGER]s, checks for [n] operands and drops [n]
    slots without looking at their types, then pushes the [INTEGER] result
    unless [omit_result] is set.  So with every argument injected and the
    result omitted the stack is unchanged, whatever it holds. *)
Theorem X3_syscall_typing (h : heap) (pctx : ProgramContext) (op : Operator)
    (i : Intrinsic) (n : nat) (s : list GofraType) :
  type op = INTRINSIC -> operand op = OperandIntrinsic i ->
  syscall_arguments_count i = Some n ->
  tc_step h pctx op s
  = if decide (length s + injected_count h op < n)
    then inl (TypecheckNotEnoughOperatorArgumentsError op n)
    else inr (tt, ((if syscall_optimization_omit_result op then [] else [INTEGER])
                   ++ drop n (repeat INTEGER (injected_count h op) ++ s))%list).
Proof.
  intros Hty Hop Hn. unfold tc_step. rewrite Hty, Hop. unfold tc_intrinsic.
  unfold get_syscall_arguments_count, injected_count. rewrite Hop.
  destruct i; cbn in Hn; try discriminate; injection Hn as <-;
    apply syscall_tc_shape.
Qed.

#[global] Instance Intrinsic_eq_dec : EqDecision Intrinsic.
Proof. solve_decision. Defined.

(** Unfolds a step of an [INTRINSIC] operator with a known intrinsic. *)
Ltac tc_intrinsic_step Hty Hop :=
  unfold tc_step; rewrite Hty, Hop; unfold tc_intrinsic.

(** X4: [IF] and [DO] pop a [BOOLEAN]: a [BOOLEAN] top is removed, any other
    top type fails with [InvalidArgumentType(BOOLEAN, t)], and an empty
    stack fails with [NotEnoughOperatorArguments(op, 1)]. *)
Theorem X4_condition_typing (h : heap) (pctx : ProgramContext) (op : Operator)
    (s : list GofraType) :
  type op = IF \/ type op = DO ->
  tc_step h pctx op (BOOLEAN :: s) = inr (tt, s) /\
  (forall t, t <> BOOLEAN ->
   tc_step h pctx op (t :: s) = inl (TypecheckInvalidOperatorArgumentTypeError BOOLEAN t op)) /\
  tc_step h pctx op [] = inl (TypecheckNotEnoughOperatorArgumentsError op 1).
Proof.
  intros Hty. unfold tc_step.
  destruct Hty as [-> | ->]; (split; [reflexivity|split; [|reflexivity]]);
    intros [] Ht; solve [congruence | reflexivity].
Qed.

(** X5: [MULTIPLY], [DIVIDE] and [MODULUS] accept exactly two [INTEGER]
    operands and push an [INTEGER]; any other pair fails with
    [InvalidBinaryMathArithmetics(lhs, rhs)] (lower, upper); a stack of
    depth below 2 fails with [NotEnoughOperatorArguments(op, 2)]. *)
Theorem X5_integer_math_typing (h : heap) (pctx : ProgramContext) (op : Operator)
    (i : Intrinsic) (s : list GofraType) :
  type op = INTRINSIC -> operand op = OperandIntrinsic i ->
  (i = MULTIPLY \/ i = DIVIDE \/ i = MODULUS) ->
  (forall a b, tc_step h pctx op (b :: a :: s)
     = if decide (a = INTEGER /\ b = INTEGER) then inr (tt, INTEGER :: s)
       else inl (TypecheckInvalidBinaryMathArithmeticsError a b op)) /\
  (forall s', length s' < 2 ->
   tc_step h pctx op s' = inl (TypecheckNotEnoughOperatorArgumentsError op 2)).
Proof.
  intros Hty Hop Hi. tc_intrinsic_step Hty Hop.
  destruct Hi as [-> | [-> | ->]]; split;
    [intros [] []; reflexivity
    | intros [|t1 [|t2 s']] Hl; cbn in Hl; try lia; reflexivity
    | intros [] []; reflexivity
    | intros [|t1 [|t2 s']] Hl; cbn in Hl; try lia; reflexivity
    | intros [] []; reflexivity
    | intros [|t1 [|t2 s']] Hl; cbn in Hl; try lia; reflexivity].
Qed.

(** X6: the six comparisons take any two operands and push a [BOOLEAN];
    a stack of depth below 2 fails with [NotEnoughOperatorArguments(op, 2)]. *)
Theorem X6_comparison_typing (h : heap) (pctx : ProgramContext) (op : Operator)
    (i : Intrinsic) (s : list GofraType) :
  type op = INTRINSIC -> operand op = OperandIntrinsic i ->
  (i = EQUAL \/ i = NOT_EQUAL \/ i = LESS_THAN \/ i = LESS_EQUAL_THAN \/
   i = GREATER_THAN \/ i = GREATER_EQUAL_THAN) ->
  (forall a b, tc_step h pctx op (b :: a :: s) = inr (tt, BOOLEAN :: s)) /\
  (forall s', length s' < 2 ->
   tc_step h pctx op s' = inl (TypecheckNotEnoughOperatorArgumentsError op 2)).
Proof.
  intros Hty Hop Hi. tc_intrinsic_step Hty Hop.
  destruct Hi as [-> | [-> | [-> | [-> | [-> | ->]]]]]; split;
    solve [ intros a b; reflexivity
          | intros [|t1 [|t2 s']] Hl; cbn in Hl; try lia; reflexivity ].
Qed.

(** X7: [SWAP] exchanges the two top slots, so [SWAP SWAP] restores any
    stack of depth at least 2; on an empty stack it fails with
    [NotEnoughOperatorArguments(op, 1)] (the check asks for one operand). *)
Theorem X7_swap_typing (h : heap) (pctx : ProgramContext) (op : Operator)
    (s : list GofraType) (a b : GofraType) :
  type op = INTRINSIC -> operand op = OperandIntrinsic SWAP ->
  tc_step h pctx op (b :: a :: s) = inr (tt, a :: b :: s) /\
  tc_run h pctx [op; op] (b :: a :: s) = inr (tt, b :: a :: s) /\
  tc_step h pctx op [] = inl (TypecheckNotEnoughOperatorArgumentsError op 1).
Proof.
  intros Hty Hop. split; [|split].
  - tc_intrinsic_step Hty Hop. reflexivity.
  - unfold tc_run. cbn [tc_iter]. unfold tc_bind at 1.
    tc_intrinsic_step Hty Hop. cbn. reflexivity.
  - tc_intrinsic_step Hty Hop. reflexivity.
Qed.

(** X8: [COPY] duplicates the top slot, whatever its type; on an empty
    stack it fails with [NotEnoughOperatorArguments(op, 1)]. *)
Theorem X8_copy_typing (h : heap) (pctx : ProgramContext) (op : Operator)
    (s : list GofraType) (t : GofraType) :
  type op = INTRINSIC -> operand op = OperandIntrinsic COPY ->
  tc_step h pctx op (t :: s) = inr (tt, t :: t :: s) /\
  tc_step h pctx op [] = inl (TypecheckNotEnoughOperatorArgumentsError op 1).
Proof. intros Hty Hop. tc_intrinsic_step Hty Hop. split; reflexivity. Qed.

(** X9: the memory intrinsics do not check operand types: [MEMORY_STORE]
    drops any two slots and [MEMORY_LOAD] replaces any two slots by an
    [INTEGER]; a stack of depth below 2 fails with
    [NotEnoughOperatorArguments(op, 2)]. *)
Theorem X9_memory_typing (h : heap) (pctx : ProgramContext) (op : Operator)
    (i : Intrinsic) (s : list GofraType) :
  type op = INTRINSIC -> operand op = OperandIntrinsic i ->
  (i = MEMORY_STORE \/ i = MEMORY_LOAD) ->
  (forall a b, tc_step h pctx op (b :: a :: s)
     = inr (tt, if decide (i = MEMORY_LOAD) then INTEGER :: s else s)) /\
  (forall s', length s' < 2 ->
   tc_step h pctx op s' = inl (TypecheckNotEnoughOperatorArgumentsError op 2)).
Proof.
  intros Hty Hop Hi. tc_intrinsic_step Hty Hop.
  destruct Hi as [-> | ->]; split;
    solve [ intros a b; reflexivity
          | intros [|t1 [|t2 s']] Hl; cbn in Hl; try lia; reflexivity ].
Qed.

(** X10: [INCREMENT] and [DECREMENT] map an [INTEGER] top to an [INTEGER];
    any other top type fails with [InvalidArgumentType(INTEGER, t)]; an
    empty stack fails with [NotEnoughOperatorArguments(op, 1)]. *)
Theorem X10_increment_typing (h : heap) (pctx : ProgramContext) (op : Operator)
    (i : Intrinsic) (s : list GofraType) :
  type op = INTRINSIC -> operand op = OperandIntrinsic i ->
  (i = INCREMENT \/ i = DECREMENT) ->
  tc_step h pctx op (INTEGER :: s) = inr (tt, INTEGER :: s) /\
  (forall t, t <> INTEGER ->
   tc_step h pctx op (t :: s) = inl (TypecheckInvalidOperatorArgumentTypeError INTEGER t op)) /\
  tc_step h pctx op [] = inl (TypecheckNotEnoughOperatorArgumentsError op 1).
Proof.
  intros Hty Hop Hi. tc_intrinsic_step Hty Hop.
  destruct Hi as [-> | ->]; (split; [reflexivity|split; [|reflexivity]]);
    intros [] Ht; solve [congruence | reflexivity].
Qed.

(* ================================================================== *)
(** * Further properties of the code generator *)

(** A [CG] computation is local when it only appends to the output, and
    what it appends (and its effect on the intern table and the heap) does
    not depend on what was written before. *)
Definition cg_local {A} (m : CG A) : Prop :=
  forall o ss hp,
    m (mkCGState o ss hp)
    = match m (mkCGState [] ss hp) with
      | inl e => inl e
      | inr (a, st) => inr (a, mkCGState (app o (out st)) (strings st) (cg_heap st))
      end.

Lemma cg_local_ret {A} (a : A) : cg_local (cg_ret a).
Proof. intros o ss hp. cbn. rewrite app_nil_r. reflexivity. Qed.

Lemma cg_local_raise {A} (e : CodegenError) : cg_local (A:=A) (cg_raise e).
Proof. intros o ss hp. reflexivity. Qed.

Lemma cg_local_bind {A B} (m : CG A) (k : A -> CG B) :
  cg_local m -> (forall a, cg_local (k a)) -> cg_local (cg_bind m k).
Proof.
  intros Hm Hk o ss hp. unfold cg_bind. rewrite Hm.
  destruct (m (mkCGState [] ss hp)) as [e|[a [o1 ss1 hp1]]]; [reflexivity|].
  cbn [out strings cg_heap]. rewrite (Hk a o1), (Hk a (app o o1)).
  destruct (k a (mkCGState [] ss1 hp1)) as [e|[b [o2 ss2 hp2]]]; [reflexivity|].
  cbn. rewrite app_assoc. reflexivity.
Qed.

Lemma cg_local_mbind {A B} (m : CG A) (k : A -> CG B) :
  cg_local m -> (forall a, cg_local (k a)) -> cg_local (mbind k m).
Proof. apply cg_local_bind. Qed.

Lemma cg_local_fd_write (text : string) : cg_local (fd_write text).
Proof. intros o ss hp. reflexivity. Qed.

Lemma cg_local_iter {A} (f : A -> CG unit) (l : list A) :
  (forall x, cg_local (f x)) -> cg_local (cg_iter f l).
Proof.
  intros Hf. induction l as [|x l IH]; cbn; [apply cg_local_ret|].
  apply cg_local_mbind; auto.
Qed.

Lemma cg_local_write (lines : list string) : cg_local (write lines).
Proof. apply cg_local_iter. intros. apply cg_local_fd_write. Qed.

Lemma cg_local_load_string (payload : string) : cg_local (load_string payload).
Proof. intros o ss hp. cbn. rewrite app_nil_r. reflexivity. Qed.

Lemma cg_local_heap_alloc (v : list (option Z)) : cg_local (heap_alloc v).
Proof. intros o ss hp. cbn. rewrite app_nil_r. reflexivity. Qed.

Lemma cg_local_heap_get (l : loc) : cg_local (heap_get l).
Proof. intros o ss hp. cbn. rewrite app_nil_r. reflexivity. Qed.

Lemma cg_local_py_index_neg (l : loc) (k : nat) : cg_local (py_index_neg l k).
Proof.
  intros o ss hp. unfold py_index_neg. cbn [cg_heap].
  destruct (decide _); [|reflexivity].
  destruct (_ !! _); [|reflexivity]. cbn. rewrite app_nil_r. reflexivity.
Qed.

Lemma cg_local_py_pop (l : loc) : cg_local (py_pop l).
Proof.
  intros o ss hp. unfold py_pop. cbn [cg_heap].
  destruct (heap_read hp l); [reflexivity|]. cbn. rewrite app_nil_r. reflexivity.
Qed.

Ltac cg_local_solve :=
  repeat (intros; first
    [ apply cg_local_ret | apply cg_local_raise | apply cg_local_fd_write
    | apply cg_local_write | apply cg_local_load_string | apply cg_local_heap_alloc
    | apply cg_local_heap_get | apply cg_local_py_index_neg | apply cg_local_py_pop
    | apply cg_local_iter
    | apply cg_local_mbind | apply cg_local_bind
    | match goal with
      | |- cg_local (if ?b then _ else _) => destruct b
      | |- cg_local (match ?x with _ => _ end) => destruct x
      end ]).

Lemma cg_local_write_syscall (op : Operator) : cg_local (write_syscall op).
Proof. unfold write_syscall. cg_local_solve. Qed.

Lemma cg_local_write_operator (pctx : ProgramContext) (debug_comments : bool)
    (idx : nat) (op : Operator) : cg_local (write_operator pctx debug_comments idx op).
Proof.
  unfold write_operator, write_debug_operator_comment, write_intrinsic,
    write_call_function, write_call_extern.
  cg_local_solve; apply cg_local_write_syscall.
Qed.

Lemma cg_local_write_body_from (pctx : ProgramContext) (debug_comments : bool)
    (idx : nat) (ops : list Operator) :
  cg_local (write_body_from pctx debug_comments idx ops).
Proof.
  revert idx. induction ops as [|op ops IH]; intros idx; cbn; [apply cg_local_ret|].
  apply cg_local_mbind; [apply cg_local_write_operator|intros; apply IH].
Qed.

#[global] Instance OperatorType_eq_dec : EqDecision OperatorType.
Proof. solve_decision. Defined.

(** A [CG] computation that leaves the intern table as it is. *)
Definition cg_keeps_strings {A} (m : CG A) : Prop :=
  forall st a st', m st = inr (a, st') -> strings st' = strings st.

Lemma cg_keeps_strings_ret {A} (a : A) : cg_keeps_strings (cg_ret a).
Proof. intros st a' st' H. injection H as _ <-. reflexivity. Qed.

Lemma cg_keeps_strings_raise {A} (e : CodegenError) : cg_keeps_strings (A:=A) (cg_raise e).
Proof. intros st a st' H. discriminate. Qed.

Lemma cg_keeps_strings_bind {A B} (m : CG A) (k : A -> CG B) :
  cg_keeps_strings m -> (forall a, cg_keeps_strings (k a)) ->
  cg_keeps_strings (cg_bind m k).
Proof.
  intros Hm Hk st b st'. unfold cg_bind.
  destruct (m st) as [e|[a st1]] eqn:E; [discriminate|].
  intros H. rewrite (Hk a st1 b st' H). exact (Hm st a st1 E).
Qed.

Lemma cg_keeps_strings_mbind {A B} (m : CG A) (k : A -> CG B) :
  cg_keeps_strings m -> (forall a, cg_keeps_strings (k a)) ->
  cg_keeps_strings (mbind k m).
Proof. apply cg_keeps_strings_bind. Qed.

Lemma cg_keeps_strings_fd_write (text : string) : cg_keeps_strings (fd_write text).
Proof. intros st a st' H. injection H as _ <-. reflexivity. Qed.

Lemma cg_keeps_strings_iter {A} (f : A -> CG unit) (l : list A) :
  (forall x, cg_keeps_strings (f x)) -> cg_keeps_strings (cg_iter f l).
Proof.
  intros Hf. induction l as [|x l IH]; cbn; [apply cg_keeps_strings_ret|].
  apply cg_keeps_strings_mbind; auto.
Qed.

Lemma cg_keeps_strings_write (lines : list string) : cg_keeps_strings (write lines).
Proof. apply cg_keeps_strings_iter. intros. apply cg_keeps_strings_fd_write. Qed.

Lemma cg_keeps_strings_heap_alloc (v : list (option Z)) : cg_keeps_strings (heap_alloc v).
Proof. intros st a st' H. injection H as _ <-. reflexivity. Qed.

Lemma cg_keeps_strings_heap_get (l : loc) : cg_keeps_strings (heap_get l).
Proof. intros st a st' H. injection H as _ <-. reflexivity. Qed.

Lemma cg_keeps_strings_py_index_neg (l : loc) (k : nat) :
  cg_keeps_strings (py_index_neg l k).
Proof.
  intros st a st'. unfold py_index_neg.
  destruct (decide _); [|discriminate]. destruct (_ !! _); [|discriminate].
  intros H. injection H as _ <-. reflexivity.
Qed.

Lemma cg_keeps_strings_py_pop (l : loc) : cg_keeps_strings (py_pop l).
Proof.
  intros st a st'. unfold py_pop. destruct (heap_read _ l); [discriminate|].
  intros H. injection H as _ <-. reflexivity.
Qed.

Ltac cg_keeps_strings_solve :=
  repeat (intros; first
    [ apply cg_keeps_strings_ret | apply cg_keeps_strings_raise
    | apply cg_keeps_strings_fd_write | apply cg_keeps_strings_write
    | apply cg_keeps_strings_heap_alloc | apply cg_keeps_strings_heap_get
    | apply cg_keeps_strings_py_index_neg | apply cg_keeps_strings_py_pop
    | apply cg_keeps_strings_iter
    | apply cg_keeps_strings_mbind | apply cg_keeps_strings_bind
    | match goal with
      | |- cg_keeps_strings (if ?b then _ else _) => destruct b
      | |- cg_keeps_strings (match ?x with _ => _ end) => destruct x
      end ]).

Lemma cg_keeps_strings_write_syscall (op : Operator) : cg_keeps_strings (write_syscall op).
Proof. unfold write_syscall. cg_keeps_strings_solve. Qed.

Lemma cg_keeps_strings_comment (op : Operator) :
  cg_keeps_strings (write_debug_operator_comment op).
Proof. unfold write_debug_operator_comment. cg_keeps_strings_solve. Qed.

(** The intern entries [(str_b, p0), (str_{b+1}, p1), ...]. *)
Fixpoint intern_entries (base : nat) (payloads : list string) : list (string * string) :=
  match payloads with
  | [] => []
  | p :: ps => ("str_" ++ show_nat base, p) :: intern_entries (S base) ps
  end.

(** The payloads the [PUSH_STRING] operators of a sequence intern, in order. *)
Definition push_string_payloads (ops : list Operator) : list string :=
  map (fun op => py_strip_ends (token_text op))
      (filter (fun op => type op = PUSH_STRING) ops).

Lemma cg_keeps_strings_write_operator (pctx : ProgramContext) (debug_comments : bool)
    (idx : nat) (op : Operator) :
  type op <> PUSH_STRING -> cg_keeps_strings (write_operator pctx debug_comments idx op).
Proof.
  intros Hty. unfold write_operator. apply cg_keeps_strings_mbind.
  - destruct debug_comments; [apply cg_keeps_strings_comment|apply cg_keeps_strings_ret].
  - intros _. unfold write_intrinsic, write_call_function, write_call_extern.
    destruct (type op); [cg_keeps_strings_solve|congruence|..];
      cg_keeps_strings_solve; apply cg_keeps_strings_write_syscall.
Qed.

Lemma write_operator_strings (pctx : ProgramContext) (debug_comments : bool)
    (idx : nat) (op : Operator) (st st' : CGState) :
  write_operator pctx debug_comments idx op st = inr (tt, st') ->
  strings st' = app (strings st) (intern_entries (length (strings st))
                                    (push_string_payloads [op])).
Proof.
  unfold push_string_payloads. cbn [filter list_filter].
  destruct (decide (type op = PUSH_STRING)) as [Hty|Hty].
  - cbn [map intern_entries]. unfold write_operator. rewrite Hty.
    unfold mbind, CG_bind, cg_bind.
    destruct (if debug_comments then write_debug_operator_comment op else cg_ret tt) as
      [e|[[] st1]] eqn:Ec; [discriminate|].
    assert (Hs1 : strings st1 = strings st).
    { destruct debug_comments.
      - exact (cg_keeps_strings_comment op st tt st1 Ec).
      - injection Ec as <-. reflexivity. }
    destruct (operand op); try discriminate.
    unfold load_string. rewrite write_spec. intros H. injection H as <-.
    cbn. rewrite Hs1. reflexivity.
  - cbn [map intern_entries]. rewrite app_nil_r.
    apply cg_keeps_strings_write_operator. exact Hty.
Qed.

Lemma cg_bind_inv {A B} (m : CG A) (k : A -> CG B) (st st' : CGState) (b : B) :
  mbind k m st = inr (b, st') ->
  exists a st1, m st = inr (a, st1) /\ k a st1 = inr (b, st').
Proof.
  unfold mbind, CG_bind, cg_bind. destruct (m st) as [e|[a st1]]; [discriminate|].
  intros H. exists a, st1. split; [reflexivity|exact H].
Qed.

Lemma intern_entries_app (base : nat) (xs ys : list string) :
  intern_entries base (xs ++ ys)%list
  = (intern_entries base xs ++ intern_entries (base + length xs) ys)%list.
Proof.
  revert base. induction xs as [|x xs IH]; intros base; cbn.
  - rewrite Nat.add_0_r. reflexivity.
  - rewrite IH. do 3 f_equal. lia.
Qed.

Lemma length_intern_entries (base : nat) (ps : list string) :
  length (intern_entries base ps) = length ps.
Proof. revert base. induction ps; intros; cbn; auto. Qed.

Lemma push_string_payloads_cons (op : Operator) (ops : list Operator) :
  push_string_payloads (op :: ops)
  = (push_string_payloads [op] ++ push_string_payloads ops)%list.
Proof.
  unfold push_string_payloads. cbn [filter list_filter].
  destruct (decide (type op = PUSH_STRING)); reflexivity.
Qed.

Lemma write_body_from_strings (pctx : ProgramContext) (debug_comments : bool)
    (idx : nat) (ops : list Operator) (st st' : CGState) :
  write_body_from pctx debug_comments idx ops st = inr (tt, st') ->
  strings st' = app (strings st) (intern_entries (length (strings st))
                                    (push_string_payloads ops)).
Proof.
  revert idx st. induction ops as [|op ops IH]; intros idx st; cbn [write_body_from].
  - intros H. injection H as <-. cbn. rewrite app_nil_r. reflexivity.
  - intros H. apply cg_bind_inv in H as ([] & st1 & H1 & H2).
    apply write_operator_strings in H1. apply IH in H2.
    rewrite H2, H1, (push_string_payloads_cons op ops), intern_entries_app.
    rewrite length_app, length_intern_entries, app_assoc. reflexivity.
Qed.

(** The functions [_write_function_declarations] emits a body for. *)
Definition declared_functions (pctx : ProgramContext) : list Function :=
  filter (fun f => negb (emit_inline_body f) && negb (is_externally_defined f))
         (map snd (functions pctx)).

(** The payloads a whole program interns: the bodies of the declared
    functions first, then the top-level operators. *)
Definition program_string_payloads (pctx : ProgramContext) : list string :=
  (concat (map (fun f => push_string_payloads (source f)) (declared_functions pctx))
   ++ push_string_payloads (operators pctx))%list.

(** A line of [_write_static_segment]. *)
Definition static_line (kv : string * string) : string :=
  kv.1 ++ ": .string " ++ dquote ++ kv.2 ++ dquote ++ nl.

Lemma write_function_declarations_strings (pctx : ProgramContext)
    (debug_comments : bool) (st st' : CGState) :
  write_function_declarations pctx debug_comments st = inr (tt, st') ->
  strings st' = app (strings st)
    (intern_entries (length (strings st))
       (concat (map (fun f => push_string_payloads (source f))
                    (declared_functions pctx)))).
Proof.
  unfold write_function_declarations. fold (declared_functions pctx).
  generalize (declared_functions pctx) as fs. intros fs. revert st.
  induction fs as [|f fs IH]; intros st; cbn [cg_iter map concat].
  - intros H. injection H as <-. cbn. rewrite app_nil_r. reflexivity.
  - intros H. apply cg_bind_inv in H as ([] & st1 & H1 & H2).
    apply cg_bind_inv in H1 as ([] & st2 & H3 & H4).
    apply cg_bind_inv in H4 as ([] & st3 & H5 & H6).
    apply IH in H2.
    injection H3 as <-. apply write_body_from_strings in H5.
    apply cg_keeps_strings_write in H6.
    rewrite H2, H6, H5, intern_entries_app, length_app, length_intern_entries,
      app_assoc. reflexivity.
Qed.

Lemma write_static_segment_spec (st : CGState) :
  write_static_segment st
  = inr (tt, mkCGState (app (out st) (("mem_buffer: .space 1000" ++ nl)
                                  :: map static_line (strings st)))
                       (strings st) (cg_heap st)).
Proof.
  destruct st as [o ss hp]. unfold write_static_segment.
  unfold mbind, CG_bind, cg_bind, fd_write. cbn [out strings cg_heap].
  assert (Hit : forall o' (l : list (string * string)),
    cg_iter (fun kv => fd_write (kv.1 ++ ": .string " ++ dquote ++ kv.2 ++ dquote ++ nl))
            l (mkCGState o' ss hp)
    = inr (tt, mkCGState (app o' (map static_line l)) ss hp)).
  { intros o' l. revert o'. induction l as [|kv l IH]; intros o'; cbn.
    - rewrite app_nil_r. reflexivity.
    - unfold mbind, CG_bind, cg_bind, fd_write. cbn. rewrite IH.
      rewrite <- app_assoc. reflexivity. }
  rewrite Hit, <- app_assoc. reflexivity.
Qed.

Lemma cg_keeps_strings_debug_header (now : string) :
  cg_keeps_strings (write_debug_header_comment now).
Proof. unfold write_debug_header_comment. cg_keeps_strings_solve. Qed.

Lemma cg_keeps_strings_entry_header : cg_keeps_strings write_entry_header.
Proof. unfold write_entry_header. cg_keeps_strings_solve. Qed.

Lemma cg_keeps_strings_epilogue (debug_comments : bool) :
  cg_keeps_strings (write_program_epilogue debug_comments).
Proof. unfold write_program_epilogue. cg_keeps_strings_solve. Qed.

Lemma generate_strings (pctx : ProgramContext) (debug_comments : bool) (now : string)
    (st st' : CGState) :
  generate_ARM64_MacOS_backend pctx debug_comments now st = inr (tt, st') ->
  strings st' = app (strings st)
    (intern_entries (length (strings st)) (program_string_payloads pctx)) /\
  exists pre, out st' = app pre (("mem_buffer: .space 1000" ++ nl)
                                 :: map static_line (strings st')).
Proof.
  unfold generate_ARM64_MacOS_backend. intros H.
  apply cg_bind_inv in H as ([] & st1 & H1 & H).
  apply cg_bind_inv in H as ([] & st2 & H2 & H).
  apply cg_bind_inv in H as ([] & st3 & H3 & H).
  apply cg_bind_inv in H as ([] & st4 & H4 & H).
  apply cg_bind_inv in H as ([] & st5 & H5 & H6).
  assert (E1 : strings st1 = strings st).
  { destruct debug_comments.
    - exact (cg_keeps_strings_debug_header now st tt st1 H1).
    - injection H1 as <-. reflexivity. }
  apply write_function_declarations_strings in H2.
  apply cg_keeps_strings_entry_header in H3.
  apply write_body_from_strings in H4.
  apply cg_keeps_strings_epilogue in H5.
  rewrite write_static_segment_spec in H6. injection H6 as <-. cbn [strings out].
  split.
  - rewrite H5, H4, H3, H2, E1. unfold program_string_payloads.
    rewrite intern_entries_app, length_app, length_intern_entries, app_assoc.
    reflexivity.
  - exists (out st5). reflexivity.
Qed.

(** A program with a string in a function body and two in its top level. *)
Definition f_greet : Function :=
  mkFunction "greet" [] [] [push_string_op "hi"] false false.

Definition pctx_strings : ProgramContext :=
  mkProgramContext [push_string_op "a"; push_string_op "b"] [("greet", f_greet)] [].

Definition strings_state : CGState :=
  match generate_ARM64_MacOS_backend pctx_strings false "" (mkCGState [] [] []) with
  | inr (_, st) => st
  | inl _ => mkCGState [] [] []
  end.

(** X12: after a successful generation on a fresh context, the string table
    holds one entry [str_i] per [PUSH_STRING] operator, numbered from 0 in
    emission order (the bodies of the declared functions, then the top-level
    operators), each with the operator's token text without its two end
    characters; and the output ends with the static segment, the
    [mem_buffer] line followed by one [.string] line per table entry. *)
Theorem X12_string_table_and_static_segment (h : heap) (pctx : ProgramContext)
    (debug_comments : bool) (now : string) (st' : CGState) :
  generate_ARM64_MacOS_backend pctx debug_comments now (mkCGState [] [] h)
    = inr (tt, st') ->
  strings st' = intern_entries 0 (program_string_payloads pctx) /\
  exists pre, out st' = app pre (("mem_buffer: .space 1000" ++ nl)
                                 :: map static_line (strings st')).
Proof. intros H. apply generate_strings in H. exact H. Qed.

Lemma X12_string_table_and_static_segment_witness :
  strings strings_state = [("str_0", "hi"); ("str_1", "a"); ("str_2", "b")] /\
  (strings strings_state = intern_entries 0 (program_string_payloads pctx_strings) /\
   exists pre, out strings_state = app pre (("mem_buffer: .space 1000" ++ nl)
                                            :: map static_line (strings strings_state))).
Proof.
  split; [vm_compute; reflexivity|].
  apply (X12_string_table_and_static_segment [] pctx_strings false "" strings_state).
  vm_compute. reflexivity.
Defined.

Lemma intern_key_inj (m n : nat) :
  "str_" ++ show_nat m = "str_" ++ show_nat n -> m = n.
Proof.
  cbn [String.append]. intros H. injection H as H. unfold show_nat in H.
  exact (pretty_nat_inj m n H).
Qed.

Lemma intern_entries_keys (base : nat) (ps : list string) (k : string) :
  k ∈ map fst (intern_entries base ps) ->
  exists m, (base <= m)%nat /\ k = "str_" ++ show_nat m.
Proof.
  revert base. induction ps as [|p ps IH]; intros base; cbn [intern_entries map].
  - rewrite elem_of_nil. done.
  - rewrite elem_of_cons. intros [->|Hk].
    + exists base. split; [lia|reflexivity].
    + destruct (IH (S base) Hk) as (m & Hm & ->). exists m. split; [lia|reflexivity].
Qed.

Lemma intern_entries_NoDup (base : nat) (ps : list string) :
  NoDup (map fst (intern_entries base ps)).
Proof.
  revert base. induction ps as [|p ps IH]; intros base; cbn [intern_entries map].
  - constructor.
  - constructor; [|apply IH]. cbn [fst]. intros Hin.
    destruct (intern_entries_keys (S base) ps _ Hin) as (m & Hm & Heq).
    apply intern_key_inj in Heq. lia.
Qed.

(** X13: after a successful generation on a fresh context, the labels of the
    string table are pairwise distinct, so no two [.string] lines of the
    static segment define the same label. *)
Theorem X13_string_labels_distinct (h : heap) (pctx : ProgramContext)
    (debug_comments : bool) (now : string) (st' : CGState) :
  generate_ARM64_MacOS_backend pctx debug_comments now (mkCGState [] [] h)
    = inr (tt, st') ->
  NoDup (map fst (strings st')).
Proof.
  intros H. apply generate_strings in H as [-> _]. cbn. apply intern_entries_NoDup.
Qed.

Lemma X13_string_labels_distinct_witness :
  NoDup (map fst (strings strings_state)).
Proof.
  apply (X13_string_labels_distinct [] pctx_strings false "" strings_state).
  vm_compute. reflexivity.
Defined.

Definition is_debug_comment (chunk : string) : bool :=
  String.prefix "//" chunk || String.prefix (tab ++ "//") chunk.

Lemma prefix_app (p s t : string) :
  String.prefix p s = true -> String.prefix p (s ++ t) = true.
Proof.
  revert p. induction s as [|b s IH]; intros [|a p]; intros H.
  - destruct t; reflexivity.
  - discriminate.
  - destruct (s ++ t); reflexivity.
  - simpl in *. destruct (ascii_dec a b); [apply IH, H|discriminate].
Qed.

Lemma indent_debug_comment (c : string) :
  String.prefix "//" c = true -> is_debug_comment (indent c) = true.
Proof.
  intros H. unfold is_debug_comment, indent. apply orb_true_intro. right.
  simpl. change (String.prefix "//" (c ++ nl) = true). apply prefix_app. exact H.
Qed.

Lemma cg_bind_inr {A B} (m : CG A) (k : A -> CG B) st a st1 :
  m st = inr (a, st1) -> mbind k m st = k a st1.
Proof. intros H. unfold mbind, CG_bind, cg_bind. rewrite H. reflexivity. Qed.

Lemma cg_bind_inl {A B} (m : CG A) (k : A -> CG B) st e :
  m st = inl e -> mbind k m st = inl e.
Proof. intros H. unfold mbind, CG_bind, cg_bind. rewrite H. reflexivity. Qed.

Lemma comment_shape (op : Operator) (st : CGState) :
  (write_debug_operator_comment op st = inl CodegenAssertionError /\
   type op = INTRINSIC /\ (forall i, operand op <> OperandIntrinsic i)) \/
  exists c, write_debug_operator_comment op st
            = inr (tt, mkCGState (app (out st) [c]) (strings st) (cg_heap st)) /\
          is_debug_comment c = true.
Proof.
  unfold write_debug_operator_comment.
  destruct (type op) eqn:Ht; destruct (operand op) eqn:Eo;
    try (left; split; [apply cg_bind_inl; reflexivity|split; [reflexivity|congruence]]);
    right; erewrite cg_bind_inr by reflexivity; cbv zeta;
    (destruct (has_optimizations op);
     [destruct (is_syscall op);
      [destruct (syscall_optimization_injected_args op)|]|]);
    repeat (erewrite cg_bind_inr by reflexivity);
    (eexists; split; [rewrite write_spec; reflexivity|]);
    apply indent_debug_comment; repeat apply prefix_app; reflexivity.
Qed.

(** [with_comments plain debug]: [debug] is [plain] with debug-comment
    chunks inserted. *)
Inductive with_comments : list string -> list string -> Prop :=
| wc_nil : with_comments [] []
| wc_same (c : string) (l0 l1 : list string) :
    with_comments l0 l1 -> with_comments (c :: l0) (c :: l1)
| wc_comment (c : string) (l0 l1 : list string) :
    is_debug_comment c = true -> with_comments l0 l1 -> with_comments l0 (c :: l1).

Lemma with_comments_refl (l : list string) : with_comments l l.
Proof. induction l; constructor; auto. Qed.

Lemma with_comments_app (a0 a1 b0 b1 : list string) :
  with_comments a0 a1 -> with_comments b0 b1 ->
  with_comments (app a0 b0) (app a1 b1).
Proof.
  intros Ha Hb. induction Ha; cbn; [exact Hb|constructor; auto|constructor; auto].
Qed.

Lemma with_comments_comments (l0 l1 cs : list string) :
  Forall (fun c => is_debug_comment c = true) cs ->
  with_comments l0 l1 -> with_comments l0 (app l1 cs).
Proof.
  intros Hcs H. rewrite <- (app_nil_r l0). apply with_comments_app; [exact H|].
  induction Hcs; constructor; auto.
Qed.

Definition debug_state_rel (s0 s1 : CGState) : Prop :=
  with_comments (out s0) (out s1) /\ strings s1 = strings s0 /\ cg_heap s1 = cg_heap s0.

Definition debug_result_rel {A} (r0 r1 : CodegenError + (A * CGState)) : Prop :=
  match r0, r1 with
  | inl e0, inl e1 => e0 = e1
  | inr (a0, s0), inr (a1, s1) => a0 = a1 /\ debug_state_rel s0 s1
  | _, _ => False
  end.

Definition cg_sim {A} (m0 m1 : CG A) : Prop :=
  forall s0 s1, debug_state_rel s0 s1 -> debug_result_rel (m0 s0) (m1 s1).

Lemma cg_sim_bind {A B} (m0 m1 : CG A) (k0 k1 : A -> CG B) :
  cg_sim m0 m1 -> (forall a, cg_sim (k0 a) (k1 a)) ->
  cg_sim (mbind k0 m0) (mbind k1 m1).
Proof.
  intros Hm Hk s0 s1 Hs. unfold mbind, CG_bind, cg_bind.
  specialize (Hm s0 s1 Hs).
  destruct (m0 s0) as [e0|[a0 t0]], (m1 s1) as [e1|[a1 t1]]; cbn in Hm; try done.
  destruct Hm as [<- Ht]. apply Hk, Ht.
Qed.

Lemma cg_sim_local {A} (m : CG A) : cg_local m -> cg_sim m m.
Proof.
  intros Hm [o0 ss0 hp0] [o1 ss1 hp1] (Ho & Hss & Hhp). cbn in *. subst.
  rewrite (Hm o0), (Hm o1).
  destruct (m (mkCGState [] ss0 hp0)) as [e|[a t]]; cbn; [reflexivity|].
  split; [reflexivity|]. split; [|split; reflexivity].
  cbn. apply with_comments_app; [exact Ho|apply with_comments_refl].
Qed.

Lemma cg_sim_comments_before {A} (c : CG unit) (m0 m1 : CG A) :
  (forall st, exists cs, Forall (fun x => is_debug_comment x = true) cs /\
     c st = inr (tt, mkCGState (app (out st) cs) (strings st) (cg_heap st))) ->
  cg_sim m0 m1 -> cg_sim m0 (c;; m1).
Proof.
  intros Hc Hm s0 s1 Hs. destruct (Hc s1) as (cs & Hcs & E).
  unfold mbind, CG_bind, cg_bind. rewrite E. apply Hm.
  destruct Hs as (Ho & Hss & Hhp). split; [|split; assumption].
  cbn. apply with_comments_comments; assumption.
Qed.

Lemma write_comments_shape (lines : list string) :
  Forall (fun l => String.prefix "//" l = true) lines ->
  forall st, exists cs, Forall (fun x => is_debug_comment x = true) cs /\
    write lines st = inr (tt, mkCGState (app (out st) cs) (strings st) (cg_heap st)).
Proof.
  intros Hl st. exists (map indent lines). split; [|apply write_spec].
  induction Hl; constructor; [apply indent_debug_comment|]; assumption.
Qed.

Lemma write_operator_sim (pctx : ProgramContext) (idx : nat) (op : Operator) :
  cg_sim (write_operator pctx false idx op) (write_operator pctx true idx op).
Proof.
  intros s0 s1 Hs.
  destruct (comment_shape op s1) as [(E & Ht & Ho)|(c & E & Hc)].
  - unfold write_operator at 2. rewrite (cg_bind_inl _ _ _ _ E).
    unfold write_operator, mbind, CG_bind, cg_bind, cg_ret. rewrite Ht.
    destruct (operand op); [reflexivity|reflexivity|exfalso; eapply Ho; reflexivity|reflexivity].
  - unfold write_operator at 2. rewrite (cg_bind_inr _ _ _ _ _ E).
    apply (cg_sim_local _ (cg_local_write_operator pctx false idx op)).
    destruct Hs as (Ho & Hss & Hhp). split; [|split; assumption].
    cbn. apply (with_comments_comments _ _ [c]); [constructor; [exact Hc|constructor]|exact Ho].
Qed.

Lemma write_body_from_sim (pctx : ProgramContext) (idx : nat) (ops : list Operator) :
  cg_sim (write_body_from pctx false idx ops) (write_body_from pctx true idx ops).
Proof.
  revert idx. induction ops as [|op ops IH]; intros idx; cbn [write_body_from].
  - apply cg_sim_local, cg_local_ret.
  - apply cg_sim_bind; [apply write_operator_sim|intros; apply IH].
Qed.

Lemma cg_sim_iter {A} (f0 f1 : A -> CG unit) (l : list A) :
  (forall x, cg_sim (f0 x) (f1 x)) -> cg_sim (cg_iter f0 l) (cg_iter f1 l).
Proof.
  intros Hf. induction l as [|x l IH]; cbn [cg_iter].
  - apply cg_sim_local, cg_local_ret.
  - apply cg_sim_bind; auto.
Qed.

Lemma write_static_segment_sim : cg_sim write_static_segment write_static_segment.
Proof.
  intros s0 s1 (Ho & Hss & Hhp). rewrite !write_static_segment_spec. cbn.
  split; [reflexivity|]. split; [|split; assumption]. cbn. rewrite Hss.
  apply with_comments_app; [exact Ho|apply with_comments_refl].
Qed.

Lemma generate_sim (pctx : ProgramContext) (now0 now1 : string) :
  cg_sim (generate_ARM64_MacOS_backend pctx false now0)
         (generate_ARM64_MacOS_backend pctx true now1).
Proof.
  unfold generate_ARM64_MacOS_backend.
  assert (Hret : forall m0 m1 : CG unit, cg_sim m0 m1 -> cg_sim (cg_ret tt;; m0) m1).
  { intros m0 m1 Hm s0 s1 Hs. exact (Hm s0 s1 Hs). }
  apply Hret, cg_sim_comments_before.
  { intros st. exists [("// Assembly generated by Gofra codegen backend" ++ nl ++ nl);
                       ("// Generated at: " ++ now1 ++ nl);
                       ("// Target: ARM64, MacOS" ++ nl ++ nl)].
    split; cycle 1.
    { destruct st as [o ss hp]. unfold write_debug_header_comment, mbind, CG_bind,
        cg_bind, fd_write. cbn [out strings cg_heap]. rewrite <- !app_assoc. reflexivity. }
    constructor; [reflexivity|]. constructor; [|constructor; [reflexivity|constructor]].
    unfold is_debug_comment. apply orb_true_intro. left.
    apply (prefix_app "//" "// Generated at: "). reflexivity. }
  apply cg_sim_bind; intros.
  { unfold write_function_declarations. apply cg_sim_iter. intros f.
    apply cg_sim_bind; [apply cg_sim_local, cg_local_fd_write|intros].
    apply cg_sim_bind; [apply write_body_from_sim|intros].
    apply cg_sim_local, cg_local_write. }
  apply cg_sim_bind; intros.
  { apply cg_sim_local. unfold write_entry_header. cg_local_solve. }
  apply cg_sim_bind; intros; [apply write_body_from_sim|].
  apply cg_sim_bind; intros; [|apply write_static_segment_sim].
  unfold write_program_epilogue. apply Hret, cg_sim_comments_before.
  { apply write_comments_shape. repeat constructor. }
  apply cg_sim_local, cg_local_write.
Qed.

(** X14: the [debug_comments] flag only adds comment lines.  On the same
    heap, the generation without debug comments and the one with them either
    both fail with the same error, or both succeed with the same string table
    and the same heap, the output of the second being the output of the first
    with extra chunks inserted, each starting with [//] or with a tab
    followed by [//]. *)
Theorem X14_debug_comments_only_add_comments (h : heap) (pctx : ProgramContext)
    (now0 now1 : string) :
  debug_result_rel (generate_ARM64_MacOS_backend pctx false now0 (mkCGState [] [] h))
                   (generate_ARM64_MacOS_backend pctx true now1 (mkCGState [] [] h)).
Proof.
  apply generate_sim. split; [constructor|split; reflexivity].
Qed.

Lemma heap_read_snoc (h : heap) (v : list (option Z)) :
  heap_read (app h [v]) (length h) = v.
Proof.
  unfold heap_read, heap. rewrite lookup_app_r, Nat.sub_diag by lia. reflexivity.
Qed.

Lemma heap_insert_snoc (h : heap) (v w : list (option Z)) :
  <[length h := w]> (app h [v]) = app h [w].
Proof. rewrite <- (Nat.add_0_r (length h)), insert_app_r. reflexivity. Qed.

Lemma lookup_repeat_lt {A} (x : A) (n k : nat) : (k < n)%nat -> repeat x n !! k = Some x.
Proof.
  revert k. induction n as [|n IH]; intros [|k] Hk; cbn; try lia; auto.
  apply IH. lia.
Qed.

Lemma removelast_repeat {A} (x : A) (n : nat) : removelast (repeat x n) = repeat x (n - 1).
Proof.
  induction n as [|[|n] IH]; cbn in *; auto.
  rewrite IH. cbn. rewrite Nat.sub_0_r. reflexivity.
Qed.

Lemma py_pop_snoc (o : list string) (ss : list (string * string)) (h : heap)
    (v : list (option Z)) :
  v <> [] ->
  py_pop (length h) (mkCGState o ss (app h [v]))
  = inr (tt, mkCGState o ss (app h [removelast v])).
Proof.
  intros Hv. unfold py_pop. cbn [cg_heap out strings]. rewrite heap_read_snoc.
  destruct v as [|x v]; [congruence|]. unfold heap. rewrite heap_insert_snoc. reflexivity.
Qed.

(** The lines of a system call none of whose arguments is injected. *)
Definition syscall_stack_lines (n : nat) (omit : bool) : list string :=
  ["ldr X16, [SP]"; "add SP, SP, #16"] ++
  concat (map (fun arg_n => ["ldr X" ++ show_nat (n - arg_n - 2) ++ ", [SP]";
                             "add SP, SP, #16"]) (seq 0 (n - 1))) ++
  ["svc #0"] ++
  (if omit then [] else ["sub SP, SP, #16"; "str X0, [SP]"]).

Lemma syscall_args_loop (n : nat) (L : loc) (args : list nat) (st : CGState) :
  heap_read (cg_heap st) L = repeat None (n - 1) ->
  Forall (fun k => k <= n - 1)%nat args ->
  cg_iter (fun arg_n =>
    let arg_register := (n - arg_n - 2)%nat in
    injected_arg ← (if decide (arg_n = 0%nat) then cg_ret None
                    else py_index_neg L arg_n);
    match injected_arg with
    | None => write ["ldr X" ++ show_nat arg_register ++ ", [SP]"];;
              write ["add SP, SP, #16"]
    | Some v => write ["mov X" ++ show_nat arg_register ++ ", #" ++ show_Z v]
    end) args st
  = inr (tt, mkCGState (app (out st)
              (map indent (concat (map (fun arg_n =>
                 ["ldr X" ++ show_nat (n - arg_n - 2) ++ ", [SP]";
                  "add SP, SP, #16"]) args))))
              (strings st) (cg_heap st)).
Proof.
  intros Hh Hargs. revert st Hh. induction Hargs as [|k args Hk Hargs IH]; intros st Hh.
  - cbn. rewrite app_nil_r. destruct st; reflexivity.
  - cbn [cg_iter]. unfold mbind at 1, CG_bind at 1, cg_bind at 1.
    assert (E : (if decide (k = 0%nat) then cg_ret None else py_index_neg L k) st
                = inr (None, st)).
    { destruct (decide (k = 0%nat)); [reflexivity|].
      unfold py_index_neg. rewrite Hh, repeat_length.
      rewrite decide_True by lia. rewrite lookup_repeat_lt by lia. reflexivity. }
    rewrite (cg_bind_inr _ _ _ _ _ E).
    unfold mbind, CG_bind, cg_bind. rewrite !write_spec. cbn [out strings cg_heap].
    rewrite IH by exact Hh. cbn [out strings cg_heap].
    cbn [map concat]. rewrite <- !app_assoc. reflexivity.
Qed.

Lemma write_syscall_no_injected (op : Operator) (i : Intrinsic) (n : nat) (st : CGState) :
  operand op = OperandIntrinsic i ->
  syscall_arguments_count i = Some n ->
  syscall_optimization_injected_args op = None ->
  write_syscall op st
  = inr (tt, mkCGState (app (out st) (map indent (syscall_stack_lines n
                                                  (syscall_optimization_omit_result op))))
                       (strings st) (app (cg_heap st) [repeat None (n - 1)])).
Proof.
  intros Ho Hn Hinj. destruct st as [o ss h].
  assert (Hn1 : (1 <= n)%nat) by (destruct i; injection Hn as <- || discriminate; lia).
  unfold write_syscall, get_syscall_arguments_count. rewrite Ho, Hn, Hinj. cbn [default].
  unfold heap_alloc at 1.
  rewrite (cg_bind_inr _ _ _ _ _ eq_refl).
  cbn [out strings cg_heap].
  assert (E1 : py_index_neg (length h) 1 (mkCGState o ss (app h [repeat None n]))
               = inr (None, mkCGState o ss (app h [repeat None n]))).
  { unfold py_index_neg. cbn [cg_heap]. rewrite heap_read_snoc, repeat_length.
    rewrite decide_True by lia. rewrite lookup_repeat_lt by lia. reflexivity. }
  rewrite (cg_bind_inr _ _ _ _ _ E1).
  unfold mbind at 1, CG_bind at 1, cg_bind at 1. rewrite write_spec. cbn [out strings cg_heap].
  unfold mbind at 1, CG_bind at 1, cg_bind at 1.
  rewrite py_pop_snoc by (destruct n; [lia|discriminate]).
  rewrite removelast_repeat.
  unfold mbind at 1, CG_bind at 1, cg_bind at 1.
  rewrite syscall_args_loop.
  2: { cbn [cg_heap]. apply heap_read_snoc. }
  2: { apply List.Forall_forall. intros k Hk%in_seq. lia. }
  cbn [out strings cg_heap].
  unfold mbind, CG_bind, cg_bind. rewrite write_spec. cbn [out strings cg_heap].
  unfold syscall_stack_lines.
  destruct (syscall_optimization_omit_result op); [unfold cg_ret|rewrite write_spec];
    cbn [out strings cg_heap]; rewrite !map_app, !app_assoc; cbn [map];
    rewrite ?app_nil_r; reflexivity.
Qed.

(** Results that agree on everything but the heap. *)
Definition heap_indep_result {A} (r1 r2 : CodegenError + (A * CGState)) : Prop :=
  match r1, r2 with
  | inl e1, inl e2 => e1 = e2
  | inr (a1, s1), inr (a2, s2) => a1 = a2 /\ out s1 = out s2 /\ strings s1 = strings s2
  | _, _ => False
  end.

Definition cg_heap_indep {A} (m : CG A) : Prop :=
  forall o ss h1 h2, heap_indep_result (m (mkCGState o ss h1)) (m (mkCGState o ss h2)).

Lemma cg_heap_indep_ret {A} (a : A) : cg_heap_indep (cg_ret a).
Proof. intros o ss h1 h2. cbn. auto. Qed.

Lemma cg_heap_indep_raise {A} (e : CodegenError) : cg_heap_indep (A:=A) (cg_raise e).
Proof. intros o ss h1 h2. reflexivity. Qed.

Lemma cg_heap_indep_bind {A B} (m : CG A) (k : A -> CG B) :
  cg_heap_indep m -> (forall a, cg_heap_indep (k a)) -> cg_heap_indep (mbind k m).
Proof.
  intros Hm Hk o ss h1 h2. specialize (Hm o ss h1 h2). unfold mbind, CG_bind, cg_bind.
  destruct (m (mkCGState o ss h1)) as [e1|[a1 [o1 ss1 hp1]]],
           (m (mkCGState o ss h2)) as [e2|[a2 [o2 ss2 hp2]]]; cbn in Hm; try done.
  destruct Hm as (<- & <- & <-). apply Hk.
Qed.

Lemma cg_heap_indep_fd_write (text : string) : cg_heap_indep (fd_write text).
Proof. intros o ss h1 h2. cbn. auto. Qed.

Lemma cg_heap_indep_iter {A} (f : A -> CG unit) (l : list A) :
  (forall x, x ∈ l -> cg_heap_indep (f x)) -> cg_heap_indep (cg_iter f l).
Proof.
  induction l as [|x l IH]; intros Hf; cbn [cg_iter]; [apply cg_heap_indep_ret|].
  apply cg_heap_indep_bind; [apply Hf; left|intros; apply IH; intros y Hy; apply Hf; right; exact Hy].
Qed.

Lemma cg_heap_indep_write (lines : list string) : cg_heap_indep (write lines).
Proof. apply cg_heap_indep_iter. intros. apply cg_heap_indep_fd_write. Qed.

Lemma cg_heap_indep_load_string (payload : string) : cg_heap_indep (load_string payload).
Proof. intros o ss h1 h2. cbn. auto. Qed.

Ltac cg_heap_indep_solve :=
  repeat (intros; first
    [ apply cg_heap_indep_ret | apply cg_heap_indep_raise
    | apply cg_heap_indep_fd_write | apply cg_heap_indep_write
    | apply cg_heap_indep_load_string
    | apply cg_heap_indep_iter
    | apply cg_heap_indep_bind
    | match goal with
      | |- cg_heap_indep (if ?b then _ else _) => destruct b
      | |- cg_heap_indep (match ?x with _ => _ end) => destruct x
      end ]).

(** No syscall operator carries an injected-args list. *)
Definition no_injected_args (op : Operator) : bool :=
  if is_syscall op then
    match syscall_optimization_injected_args op with None => true | Some _ => false end
  else true.

Lemma cg_heap_indep_write_syscall (op : Operator) (i : Intrinsic) (n : nat) :
  operand op = OperandIntrinsic i -> syscall_arguments_count i = Some n ->
  syscall_optimization_injected_args op = None -> cg_heap_indep (write_syscall op).
Proof.
  intros Ho Hn Hinj o ss h1 h2.
  rewrite !(write_syscall_no_injected op i n _ Ho Hn Hinj). cbn. auto.
Qed.

Lemma cg_heap_indep_comment (op : Operator) :
  no_injected_args op = true -> cg_heap_indep (write_debug_operator_comment op).
Proof.
  intros Hop. unfold write_debug_operator_comment.
  apply cg_heap_indep_bind; [cg_heap_indep_solve|intros c].
  apply cg_heap_indep_bind; [|intros; apply cg_heap_indep_write].
  destruct (has_optimizations op); [|apply cg_heap_indep_ret].
  destruct (is_syscall op) eqn:Hs; [|apply cg_heap_indep_ret].
  unfold no_injected_args in Hop. rewrite Hs in Hop.
  destruct (syscall_optimization_injected_args op); [discriminate|cg_heap_indep_solve].
Qed.

Lemma cg_heap_indep_write_operator (pctx : ProgramContext) (debug_comments : bool)
    (idx : nat) (op : Operator) :
  no_injected_args op = true -> cg_heap_indep (write_operator pctx debug_comments idx op).
Proof.
  intros Hop. unfold write_operator. apply cg_heap_indep_bind.
  { destruct debug_comments; [apply cg_heap_indep_comment, Hop|apply cg_heap_indep_ret]. }
  intros _. destruct (type op) eqn:Ht; try (unfold write_call_function, write_call_extern;
    cg_heap_indep_solve; fail).
  destruct (operand op) eqn:Ho; try apply cg_heap_indep_raise.
  unfold write_intrinsic.
  assert (Hsys : forall n, syscall_arguments_count i = Some n -> cg_heap_indep (write_syscall op)).
  { intros n Hn. apply (cg_heap_indep_write_syscall op i n Ho Hn).
    unfold no_injected_args, is_syscall in Hop. rewrite Ht, Ho, Hn in Hop.
    cbn in Hop. destruct (syscall_optimization_injected_args op); [discriminate|reflexivity]. }
  destruct i; try apply cg_heap_indep_write; eapply Hsys; reflexivity.
Qed.

Lemma cg_heap_indep_write_body_from (pctx : ProgramContext) (debug_comments : bool)
    (idx : nat) (ops : list Operator) :
  Forall (fun op => no_injected_args op = true) ops ->
  cg_heap_indep (write_body_from pctx debug_comments idx ops).
Proof.
  intros Hops. revert idx. induction Hops as [|op ops Hop Hops IH]; intros idx;
    cbn [write_body_from]; [apply cg_heap_indep_ret|].
  apply cg_heap_indep_bind; [apply cg_heap_indep_write_operator, Hop|intros; apply IH].
Qed.

(** Every operator the backend lowers: the bodies of the declared functions
    and the top-level operators. *)
Definition program_operators (pctx : ProgramContext) : list Operator :=
  (concat (map source (declared_functions pctx)) ++ operators pctx)%list.

Lemma cg_heap_indep_generate (pctx : ProgramContext) (debug_comments : bool) (now : string) :
  Forall (fun op => no_injected_args op = true) (program_operators pctx) ->
  cg_heap_indep (generate_ARM64_MacOS_backend pctx debug_comments now).
Proof.
  unfold program_operators. rewrite Forall_app. intros [Hfs Hmain].
  unfold generate_ARM64_MacOS_backend.
  apply cg_heap_indep_bind; [unfold write_debug_header_comment; cg_heap_indep_solve|intros _].
  apply cg_heap_indep_bind.
  { unfold write_function_declarations. fold (declared_functions pctx).
    apply cg_heap_indep_iter. intros f Hf.
    apply cg_heap_indep_bind; [apply cg_heap_indep_fd_write|intros _].
    apply cg_heap_indep_bind; [|intros _; apply cg_heap_indep_write].
    apply cg_heap_indep_write_body_from.
    rewrite Forall_concat, Forall_fmap in Hfs. rewrite Forall_forall in Hfs.
    exact (Hfs f Hf). }
  intros _. apply cg_heap_indep_bind; [unfold write_entry_header; cg_heap_indep_solve|intros _].
  apply cg_heap_indep_bind; [apply cg_heap_indep_write_body_from, Hmain|intros _].
  apply cg_heap_indep_bind; [unfold write_program_epilogue; cg_heap_indep_solve|intros _].
  intros o ss h1 h2. rewrite !write_static_segment_spec. cbn. auto.
Qed.

(** X15: lowering a system-call intrinsic that carries no injected-args list
    (debug comments off) pops the call number into X16, then pops the
    remaining [n - 1] arguments into the registers X(n-2), ..., X0 in that
    order, emits [svc #0] and pushes X0 unless the result is omitted; it
    leaves the string table and the existing heap lists unchanged, allocating
    only a fresh list of [n - 1] [None]s. *)
Theorem X15_syscall_without_injected_args (pctx : ProgramContext) (idx : nat)
    (op : Operator) (i : Intrinsic) (n : nat) (st : CGState) :
  type op = INTRINSIC ->
  operand op = OperandIntrinsic i ->
  syscall_arguments_count i = Some n ->
  syscall_optimization_injected_args op = None ->
  write_operator pctx false idx op st
  = inr (tt, mkCGState (app (out st) (map indent (syscall_stack_lines n
                                                  (syscall_optimization_omit_result op))))
                       (strings st) (app (cg_heap st) [repeat None (n - 1)])).
Proof.
  intros Ht Ho Hn Hinj. unfold write_operator, mbind, CG_bind, cg_bind, cg_ret.
  rewrite Ht, Ho. unfold write_intrinsic.
  rewrite <- (write_syscall_no_injected op i n st Ho Hn Hinj).
  destruct i; try discriminate; reflexivity.
Qed.

Lemma X15_syscall_without_injected_args_witness :
  write_operator (empty_program []) false 0 (intrinsic_op SYSCALL2) (mkCGState [] [] [])
  = inr (tt, mkCGState (map indent
           ["ldr X16, [SP]"; "add SP, SP, #16"; "ldr X1, [SP]"; "add SP, SP, #16";
            "ldr X0, [SP]"; "add SP, SP, #16"; "svc #0"; "sub SP, SP, #16";
            "str X0, [SP]"]) [] [[None; None]]).
Proof.
  rewrite (X15_syscall_without_injected_args (empty_program []) 0 (intrinsic_op SYSCALL2)
             SYSCALL2 3 (mkCGState [] [] [])); reflexivity.
Defined.

(** X16: when no system-call operator of the program carries an
    injected-args list, the backend's result does not depend on the heap:
    on any two heaps it fails with the same error on both or produces the
    same assembly text on both (in particular, running it again on the heap
    a first run left produces the same text). *)
Theorem X16_output_independent_of_heap (h1 h2 : heap) (pctx : ProgramContext)
    (debug_comments : bool) (now : string) :
  forallb no_injected_args (program_operators pctx) = true ->
  match run_backend h1 pctx debug_comments now, run_backend h2 pctx debug_comments now with
  | inl e1, inl e2 => e1 = e2
  | inr (text1, _), inr (text2, _) => text1 = text2
  | _, _ => False
  end.
Proof.
  intros Hall. assert (H : Forall (fun op => no_injected_args op = true)
                             (program_operators pctx)).
  { apply List.Forall_forall. intros op Hop. rewrite forallb_forall in Hall. auto. }
  pose proof (cg_heap_indep_generate pctx debug_comments now H [] [] h1 h2) as Hg.
  unfold run_backend.
  destruct (generate_ARM64_MacOS_backend pctx debug_comments now (mkCGState [] [] h1))
    as [e1|[[] s1]],
    (generate_ARM64_MacOS_backend pctx debug_comments now (mkCGState [] [] h2))
    as [e2|[[] s2]]; cbn in Hg; try done.
  destruct Hg as (_ & -> & _). reflexivity.
Qed.

Definition syscall_program : ProgramContext :=
  empty_program [push_int_op 60; intrinsic_op SYSCALL0; intrinsic_op DROP].

Lemma X16_output_independent_of_heap_witness :
  match run_backend [] syscall_program true "now" ,
        run_backend [[Some 1%Z]; []] syscall_program true "now" with
  | inl e1, inl e2 => e1 = e2
  | inr (text1, _), inr (text2, _) => text1 = text2
  | _, _ => False
  end.
Proof.
  apply (X16_output_independent_of_heap [] [[Some 1%Z]; []] syscall_program true "now").
  vm_compute. reflexivity.
Defined.

(** X11: a [CALL] whose target is neither an extern name nor in the
    function table is a [KeyError] in both the type-checker (whatever the
    stack) and the code generator (whatever the state, with or without
    debug comments). *)
Theorem X11_unknown_call_target (h : heap) (pctx : ProgramContext) (op : Operator)
    (fname : string) (idx : nat) (debug_comments : bool) (s : list GofraType)
    (st : CGState) :
  type op = CALL -> operand op = OperandStr fname ->
  set_mem fname (extern_functions pctx) = false ->
  dict_get fname (functions pctx) = None ->
  tc_step h pctx op s = inl (PythonKeyError fname) /\
  write_operator pctx debug_comments idx op st = inl (CodegenKeyError fname).
Proof.
  intros Hty Hop Hext Hget. split.
  - unfold tc_step. rewrite Hty, Hop. cbn [str_of_operand]. rewrite Hext, Hget.
    reflexivity.
  - destruct debug_comments.
    + destruct (comment_shape op st) as [(_ & Ht & _)|(c & E & _)]; [congruence|].
      unfold write_operator. rewrite (cg_bind_inr _ _ _ _ _ E), Hty, Hop, Hget, Hext.
      reflexivity.
    + unfold write_operator. rewrite Hty, Hop, Hget, Hext. reflexivity.
Qed.

(* ------------------------------------------------------------------ *)
(** ** Instances of the further properties *)

Definition frame_ops : list Operator := [push_int_op 1; intrinsic_op DROP].

Lemma X1_typecheck_frame_witness :
  validate_type_safety [] (empty_program frame_ops) frame_ops = inr tt /\
  tc_run [] (empty_program frame_ops) frame_ops [BOOLEAN; INTEGER]
  = inr (tt, [BOOLEAN; INTEGER]) /\
  tc_run [] (empty_program frame_ops) frame_ops ([INTEGER] ++ [BOOLEAN])%list
  = inr (tt, ([INTEGER] ++ [BOOLEAN])%list).
Proof.
  split; [vm_compute; reflexivity|split].
  - apply (proj2 (X1_typecheck_frame [] (empty_program frame_ops) frame_ops)).
    vm_compute. reflexivity.
  - apply (proj1 (X1_typecheck_frame [] (empty_program frame_ops) frame_ops)).
    vm_compute. reflexivity.
Defined.

Lemma X3_syscall_typing_witness :
  tc_step [] (empty_program []) (intrinsic_op SYSCALL1) [BOOLEAN; INTEGER]
  = inr (tt, [INTEGER]) /\
  tc_step [] (empty_program []) (intrinsic_op SYSCALL1) [BOOLEAN]
  = inl (TypecheckNotEnoughOperatorArgumentsError (intrinsic_op SYSCALL1) 2).
Proof.
  split.
  - rewrite (X3_syscall_typing [] (empty_program []) (intrinsic_op SYSCALL1) SYSCALL1 2
               [BOOLEAN; INTEGER]) by reflexivity. reflexivity.
  - rewrite (X3_syscall_typing [] (empty_program []) (intrinsic_op SYSCALL1) SYSCALL1 2
               [BOOLEAN]) by reflexivity. reflexivity.
Defined.

Definition if_op : Operator :=
  mkOperator IF OperandNone "if" "" (Some 3%nat) false None false None.

Lemma X4_condition_typing_witness :
  tc_step [] (empty_program []) if_op [BOOLEAN; INTEGER] = inr (tt, [INTEGER]) /\
  (forall t, t <> BOOLEAN ->
   tc_step [] (empty_program []) if_op (t :: [INTEGER])
   = inl (TypecheckInvalidOperatorArgumentTypeError BOOLEAN t if_op)) /\
  tc_step [] (empty_program []) if_op [] = inl (TypecheckNotEnoughOperatorArgumentsError if_op 1).
Proof.
  apply (X4_condition_typing [] (empty_program []) if_op [INTEGER]). left. reflexivity.
Defined.

Lemma X5_integer_math_typing_witness :
  tc_step [] (empty_program []) (intrinsic_op MULTIPLY) [INTEGER; INTEGER]
  = inr (tt, [INTEGER]) /\
  tc_step [] (empty_program []) (intrinsic_op MULTIPLY) [INTEGER; POINTER]
  = inl (TypecheckInvalidBinaryMathArithmeticsError POINTER INTEGER (intrinsic_op MULTIPLY)).
Proof.
  pose proof (X5_integer_math_typing [] (empty_program []) (intrinsic_op MULTIPLY)
                MULTIPLY [] eq_refl eq_refl (or_introl eq_refl)) as [H _].
  split; [apply (H INTEGER INTEGER)|apply (H POINTER INTEGER)].
Defined.

Lemma X6_comparison_typing_witness :
  tc_step [] (empty_program []) (intrinsic_op LESS_THAN) [POINTER; INTEGER]
  = inr (tt, [BOOLEAN]) /\
  tc_step [] (empty_program []) (intrinsic_op LESS_THAN) [INTEGER]
  = inl (TypecheckNotEnoughOperatorArgumentsError (intrinsic_op LESS_THAN) 2).
Proof.
  destruct (X6_comparison_typing [] (empty_program []) (intrinsic_op LESS_THAN)
              LESS_THAN [] eq_refl eq_refl) as [H1 H2].
  { right. right. left. reflexivity. }
  split; [apply (H1 INTEGER POINTER)|apply H2; cbn; lia].
Defined.

Lemma X7_swap_typing_witness :
  tc_step [] (empty_program []) (intrinsic_op SWAP) [INTEGER; BOOLEAN]
  = inr (tt, [BOOLEAN; INTEGER]) /\
  tc_run [] (empty_program []) [intrinsic_op SWAP; intrinsic_op SWAP] [INTEGER; BOOLEAN]
  = inr (tt, [INTEGER; BOOLEAN]) /\
  tc_step [] (empty_program []) (intrinsic_op SWAP) []
  = inl (TypecheckNotEnoughOperatorArgumentsError (intrinsic_op SWAP) 1).
Proof.
  apply (X7_swap_typing [] (empty_program []) (intrinsic_op SWAP) [] BOOLEAN INTEGER);
    reflexivity.
Defined.

Lemma X8_copy_typing_witness :
  tc_step [] (empty_program []) (intrinsic_op COPY) [POINTER]
  = inr (tt, [POINTER; POINTER]) /\
  tc_step [] (empty_program []) (intrinsic_op COPY) []
  = inl (TypecheckNotEnoughOperatorArgumentsError (intrinsic_op COPY) 1).
Proof.
  apply (X8_copy_typing [] (empty_program []) (intrinsic_op COPY) [] POINTER);
    reflexivity.
Defined.

Lemma X9_memory_typing_witness :
  tc_step [] (empty_program []) (intrinsic_op MEMORY_LOAD) [BOOLEAN; BOOLEAN]
  = inr (tt, [INTEGER]).
Proof.
  apply (X9_memory_typing [] (empty_program []) (intrinsic_op MEMORY_LOAD) MEMORY_LOAD []);
    [reflexivity|reflexivity|right; reflexivity].
Defined.

Lemma X10_increment_typing_witness :
  tc_step [] (empty_program []) (intrinsic_op INCREMENT) [INTEGER] = inr (tt, [INTEGER]) /\
  (forall t, t <> INTEGER ->
   tc_step [] (empty_program []) (intrinsic_op INCREMENT) [t]
   = inl (TypecheckInvalidOperatorArgumentTypeError INTEGER t (intrinsic_op INCREMENT))) /\
  tc_step [] (empty_program []) (intrinsic_op INCREMENT) []
  = inl (TypecheckNotEnoughOperatorArgumentsError (intrinsic_op INCREMENT) 1).
Proof.
  apply (X10_increment_typing [] (empty_program []) (intrinsic_op INCREMENT) INCREMENT []);
    [reflexivity|reflexivity|left; reflexivity].
Defined.

Definition call_g_op : Operator :=
  mkOperator CALL (OperandStr "g") "g" "" None false None false None.

Lemma X11_unknown_call_target_witness :
  tc_step [] pctx_f_good call_g_op [INTEGER] = inl (PythonKeyError "g") /\
  write_operator pctx_f_good true 0 call_g_op (mkCGState [] [] [])
  = inl (CodegenKeyError "g").
Proof.
  apply (X11_unknown_call_target [] pctx_f_good call_g_op "g" 0 true [INTEGER]
           (mkCGState [] [] [])); reflexivity.
Defined.


Ltac sp_value :=
  match goal with
  | |- sp_delta ?l = _ => let v := eval vm_compute in (sp_delta l) in change (sp_delta l) with v
  end.

Lemma sp_syscall (h : heap) (pctx : ProgramContext) (idx : nat) (op : Operator)
    (i : Intrinsic) (n : nat) (s s' : list GofraType) (ss : list (string * string))
    (hp : heap) (st' : CGState) :
  type op = INTRINSIC -> operand op = OperandIntrinsic i ->
  syscall_arguments_count i = Some n ->
  syscall_optimization_injected_args op = None ->
  tc_step h pctx op s = inr (tt, s') ->
  write_operator pctx false idx op (mkCGState [] ss hp) = inr (tt, st') ->
  sp_delta (out st') = (16 * (Z.of_nat (length s) - Z.of_nat (length s')))%Z.
Proof.
  intros Ht Ho Hn Hinj Htc Hcg.
  assert (Hcg' := write_syscall_no_injected op i n (mkCGState [] ss hp) Ho Hn Hinj).
  unfold write_operator, mbind, CG_bind, cg_bind, cg_ret in Hcg. rewrite Ht, Ho in Hcg.
  unfold write_intrinsic in Hcg.
  unfold tc_step in Htc. rewrite Ht, Ho in Htc. unfold tc_intrinsic in Htc.
  unfold get_syscall_arguments_count in Htc. rewrite Ho in Htc.
  unfold mbind, TC_bind in Htc. cbv beta in Htc.
  destruct i; try discriminate; injection Hn as <-;
    rewrite Hcg' in Hcg; injection Hcg as <-;
    rewrite syscall_tc_shape in Htc; cbv zeta in Htc; rewrite Hinj in Htc; cbn [filter list_filter length] in Htc;
    (match type of Htc with context [decide ?P] => destruct (decide P) as [|Hlen] end; [discriminate|]);
    injection Htc as <-; cbn [out]; rewrite length_app, length_drop;
    destruct (syscall_optimization_omit_result op); sp_value; cbn [length app repeat] in *; simpl in Hlen; lia.
Qed.

Ltac sp_nonsyscall Htc Hcg s :=
  destruct s as [|a [|b s]]; [|destruct a|destruct a, b]; cbn in Htc; try discriminate;
  injection Htc as <-;
  repeat match type of Hcg with
         | context [match operand ?op with _ => _ end] => destruct (operand op)
         | context [match jumps_to_operator_idx ?op with _ => _ end] =>
             destruct (jumps_to_operator_idx op)
         end;
  cbn in Hcg; try discriminate; injection Hcg as <-; sp_value; cbn [length]; lia.

(** X17: for every operator except [CALL], [MEMORY_LOAD], [MEMORY_STORE]
    and system calls with an injected-args list, the code emitted for it
    (debug comments off) moves SP by exactly 16 bytes per slot the
    type-checker removes: when both succeed, the net [add]/[sub SP, SP, #16]
    count equals 16 times the change in type-stack depth. *)
Theorem X17_sp_matches_typing (h : heap) (pctx : ProgramContext) (idx : nat)
    (op : Operator) (s s' : list GofraType) (ss : list (string * string)) (hp : heap)
    (st' : CGState) :
  type op <> CALL ->
  operand op <> OperandIntrinsic MEMORY_LOAD ->
  operand op <> OperandIntrinsic MEMORY_STORE ->
  no_injected_args op = true ->
  tc_step h pctx op s = inr (tt, s') ->
  write_operator pctx false idx op (mkCGState [] ss hp) = inr (tt, st') ->
  sp_delta (out st') = (16 * (Z.of_nat (length s) - Z.of_nat (length s')))%Z.
Proof.
  intros Hcall Hml Hms Hinj Htc Hcg.
  destruct (type op) eqn:Ht; try congruence.
  3: { destruct (operand op) eqn:Ho;
         try (unfold tc_step in Htc; rewrite Ht, Ho in Htc; discriminate).
       assert (Hsys : forall n, syscall_arguments_count i = Some n ->
                 sp_delta (out st') = (16 * (Z.of_nat (length s) - Z.of_nat (length s')))%Z).
       { intros n Hn. apply (sp_syscall h pctx idx op i n s s' ss hp st' Ht Ho Hn); auto.
         unfold no_injected_args, is_syscall in Hinj. rewrite Ht, Ho, Hn in Hinj.
         cbn in Hinj. destruct (syscall_optimization_injected_args op); [discriminate|reflexivity]. }
       destruct i; try (eapply Hsys; reflexivity); try congruence;
         unfold tc_step in Htc; rewrite Ht, Ho in Htc;
         unfold write_operator, mbind, CG_bind, cg_bind, cg_ret in Hcg; rewrite Ht, Ho in Hcg;
         sp_nonsyscall Htc Hcg s. }
  all: unfold tc_step in Htc; rewrite Ht in Htc;
    unfold write_operator, mbind, CG_bind, cg_bind, cg_ret in Hcg; rewrite Ht in Hcg;
    sp_nonsyscall Htc Hcg s.
Qed.

Definition plus_state : CGState :=
  match write_operator (empty_program []) false 0 (intrinsic_op PLUS) (mkCGState [] [] []) with
  | inr (_, st) => st
  | inl _ => mkCGState [] [] []
  end.

Lemma X17_sp_matches_typing_witness :
  sp_delta (out plus_state) = 16%Z.
Proof.
  apply (X17_sp_matches_typing [] (empty_program []) 0 (intrinsic_op PLUS)
           [INTEGER; INTEGER] [INTEGER] [] [] plus_state);
    try discriminate; reflexivity.
Defined.

(** X18: [MEMORY_STORE] is typed as removing its two operands, but the code
    emitted for it pops only the value: it moves SP by one slot (16 bytes)
    and leaves the address slot on the machine stack. *)
Theorem X18_memory_store_pops_one_slot (h : heap) (pctx : ProgramContext) (idx : nat)
    (op : Operator) (a b : GofraType) (s : list GofraType) (ss : list (string * string))
    (hp : heap) :
  type op = INTRINSIC -> operand op = OperandIntrinsic MEMORY_STORE ->
  tc_step h pctx op (b :: a :: s) = inr (tt, s) /\
  write_operator pctx false idx op (mkCGState [] ss hp)
  = inr (tt, mkCGState (map indent ["ldr X0, [SP]"; "add SP, SP, #16"; "ldr X1, [SP]";
                                    "str X0, [X1]"]) ss hp) /\
  sp_delta (map indent ["ldr X0, [SP]"; "add SP, SP, #16"; "ldr X1, [SP]";
                        "str X0, [X1]"]) = 16%Z.
Proof.
  intros Ht Ho. split; [|split].
  - unfold tc_step. rewrite Ht, Ho. reflexivity.
  - unfold write_operator, mbind, CG_bind, cg_bind, cg_ret. rewrite Ht, Ho. reflexivity.
  - reflexivity.
Qed.

Lemma X18_memory_store_pops_one_slot_witness :
  tc_step [] (empty_program []) (intrinsic_op MEMORY_STORE) [INTEGER; POINTER] = inr (tt, []) /\
  write_operator (empty_program []) false 0 (intrinsic_op MEMORY_STORE) (mkCGState [] [] [])
  = inr (tt, mkCGState (map indent ["ldr X0, [SP]"; "add SP, SP, #16"; "ldr X1, [SP]";
                                    "str X0, [X1]"]) [] []) /\
  sp_delta (map indent ["ldr X0, [SP]"; "add SP, SP, #16"; "ldr X1, [SP]";
                        "str X0, [X1]"]) = 16%Z.
Proof.
  apply (X18_memory_store_pops_one_slot [] (empty_program []) 0 (intrinsic_op MEMORY_STORE)
           POINTER INTEGER [] [] []); reflexivity.
Defined.











